(** * Bilibili recommendation-list creators blocker: a verified model

    The userscript exists in two variants, [src/main.js] and the variant
    with the list expansion step.  Both share the URL parser, the cookie
    reader, the block request and the batch loop; they differ in the
    extractor's behaviour when the container is missing and in the
    optional expansion step.  The shared code is modelled once, each
    variant's own functions live in a module of their own. *)

From Stdlib Require Import String Ascii List ZArith Lia Bool Arith.
Import ListNotations.
Local Open Scope string_scope.
Local Open Scope list_scope.

Set Warnings "-register-all".

(** ** Strings and the two regular expressions *)

(** [\d] : an ASCII decimal digit. *)
Definition is_digit (c : ascii) : bool :=
  let n := nat_of_ascii c in (48 <=? n)%nat && (n <=? 57)%nat.

(** [[^;]] : any character but the semicolon. *)
Definition not_semicolon (c : ascii) : bool :=
  negb (Ascii.eqb c ";"%char).

(** The greedy quantifier [c+] / [c*] at the end of a pattern takes the
    longest run of characters of the class. *)
Fixpoint take_while (p : ascii -> bool) (s : string) : string :=
  match s with
  | String c s' => if p c then String c (take_while p s') else EmptyString
  | EmptyString => EmptyString
  end.

(** Matching a literal at the head of the subject: the rest on success. *)
Fixpoint strip_literal (lit s : string) : option string :=
  match lit, s with
  | EmptyString, _ => Some s
  | String a lit', String b s' =>
      if Ascii.eqb a b then strip_literal lit' s' else None
  | String _ _, EmptyString => None
  end.

(** One attempt of the pattern [lit(cls+)] at the head of the subject:
    capture group 1 when it matches. *)
Definition match_here (lit : string) (cls : ascii -> bool) (s : string)
  : option string :=
  match strip_literal lit s with
  | Some rest =>
      match take_while cls rest with
      | EmptyString => None
      | run => Some run
      end
  | None => None
  end.

(** [String.prototype.match] with a non-global, unanchored pattern: the
    attempts start at index 0 and move right, the first success wins. *)
Fixpoint regex_match (lit : string) (cls : ascii -> bool) (s : string)
  : option string :=
  match match_here lit cls s with
  | Some g => Some g
  | None =>
      match s with
      | String _ s' => regex_match lit cls s'
      | EmptyString => None
      end
  end.

Definition space_marker : string := "space.bilibili.com/".
Definition cookie_marker : string := "bili_jct=".

(** [getCsrfToken]: [document.cookie.match(/bili_jct=([^;]+)/)]. *)
Definition getCsrfToken (cookie : string) : option string :=
  match regex_match cookie_marker not_semicolon cookie with
  | Some g => Some g
  | None => None
  end.

(** [parseUidFromUrl]: [url.match(/space\.bilibili\.com\/(\d+)/)]. *)
Definition parseUidFromUrl (url : string) : option string :=
  match regex_match space_marker is_digit url with
  | Some g => Some g
  | None => None
  end.

Local Open Scope Z_scope.

(** ** JavaScript values *)

(** Values that [res.json()] can deliver, plus [undefined] for the read
    of a property that is not there.  Numbers are the integral status
    codes of the provider. *)
Inductive JSValue : Type :=
| JUndefined
| JNull
| JBool (b : bool)
| JNum (n : Z)
| JStr (s : string)
| JArr (items : list JSValue)
| JObj (props : list (string * JSValue)).

Fixpoint assoc (k : string) (props : list (string * JSValue)) : option JSValue :=
  match props with
  | [] => None
  | (k', v) :: more => if String.eqb k k' then Some v else assoc k more
  end.

(** [data.k] for the keys [code] and [message], which no built-in
    prototype defines: [None] is the TypeError thrown on [null] and
    [undefined], a missing property reads as [undefined]. *)
Definition getProp (data : JSValue) (k : string) : option JSValue :=
  match data with
  | JUndefined | JNull => None
  | JObj props =>
      match assoc k props with
      | Some v => Some v
      | None => Some JUndefined
      end
  | _ => Some JUndefined
  end.

(** [v === 0]. *)
Definition strict_eq_zero (v : JSValue) : bool :=
  match v with
  | JNum 0 => true
  | _ => false
  end.

(** The conversion of a parsed value to a string, as a template literal
    does it, throws a TypeError on an object that has a property of its
    own named toString (a parsed value is never callable, and the
    inherited valueOf returns the object), and on an array one of whose
    elements throws (join skips null); every other parsed value
    converts. *)
Fixpoint toString_throws (v : JSValue) : bool :=
  match v with
  | JObj props =>
      match assoc "toString" props with
      | Some _ => true
      | None => false
      end
  | JArr items => existsb toString_throws items
  | _ => false
  end.

(** [!tok] for the module-level [csrf_token], a string or [null]. *)
Definition falsy (tok : option string) : bool :=
  match tok with
  | None => true
  | Some EmptyString => true
  | Some (String _ _) => false
  end.

(** Template literals and console arguments, kept in pieces. *)
Inductive Piece : Type :=
| Lit (s : string)
| Num (n : Z)
| Str (s : string)
| Val (v : JSValue).

Definition Template : Type := list Piece.

(** The newline and the double quote inside the messages. *)
Definition nl : string := String (ascii_of_nat 10) EmptyString.
Definition dq : string := String (ascii_of_nat 34) EmptyString.

(** ** The browser: requests, DOM, events *)

Record Request : Type := mkRequest {
  url : string;
  method : string;
  credentials : string;
  headers : list (string * string);
  body : list (string * string)
}.

(** A response that [fetch] resolved with: any HTTP status, and the
    body as [res.json()] sees it ([None]: the body does not parse and
    the promise rejects). *)
Record Response : Type := mkResponse {
  status : Z;
  json : option JSValue
}.

Inductive FetchOutcome : Type :=
| FetchRejected
| FetchResolved (res : Response).

Inductive Element : Type :=
| mkElement (href : string) (offsetParent : option Element)
            (querySelectorAll : string -> list Element).

Definition href (e : Element) : string :=
  match e with mkElement h _ _ => h end.
Definition offsetParent (e : Element) : option Element :=
  match e with mkElement _ p _ => p end.
Definition querySelectorAll (e : Element) : string -> list Element :=
  match e with mkElement _ _ q => q end.

Record Document : Type := mkDocument {
  querySelector : string -> option Element
}.

Inductive Level : Type := LogLevel | WarnLevel | ErrorLevel.

Inductive Event : Type :=
| EQuerySelector (sel : string)
| EQuerySelectorAll (sel : string)
| EConsole (level : Level) (args : Template)
| EAlert (msg : Template)
| EConfirm (msg : Template) (answer : bool)
| EClick
| ESleep (ms : Z)
| EFetchStart (req : Request)
| EFetchEnd (out : FetchOutcome)
| EOverlayCreate
| EOverlayText (text : Template)
| EOverlayRemove.

(** What the script cannot decide: the credential read at load time,
    the provider's answers, the user's answer to the confirmation and
    the page's reaction to a click on the expand control.  Answers may
    depend on everything that happened before. *)
Record Env : Type := mkEnv {
  csrf_token : option string;
  endpoint : list Event -> Request -> FetchOutcome;
  user_confirms : list Event -> Template -> bool;
  click_effect : Document -> Document
}.

Record World : Type := mkWorld {
  document : Document;
  trace : list Event
}.

(** ** The state monad of the script *)

Definition M (A : Type) : Type := World -> A * World.

Definition ret {A : Type} (a : A) : M A := fun w => (a, w).

Definition bind {A B : Type} (c : M A) (k : A -> M B) : M B :=
  fun w => let (a, w') := c w in k a w'.

Declare Scope script_scope.
Delimit Scope script_scope with script.
Notation "x <- c ;; k" := (bind c (fun x => k))
  (at level 61, c at next level, right associativity) : script_scope.
Notation "c ;; k" := (bind c (fun _ => k))
  (at level 61, right associativity) : script_scope.
Local Open Scope script_scope.

Definition emit (e : Event) : M unit :=
  fun w => (tt, mkWorld (document w) (trace w ++ [e])).

Definition console_log (args : Template) : M unit := emit (EConsole LogLevel args).
Definition console_warn (args : Template) : M unit := emit (EConsole WarnLevel args).
Definition console_error (args : Template) : M unit := emit (EConsole ErrorLevel args).
Definition alert (msg : Template) : M unit := emit (EAlert msg).

Definition confirm (env : Env) (msg : Template) : M bool :=
  fun w =>
    let answer := user_confirms env (trace w) msg in
    (answer, mkWorld (document w) (trace w ++ [EConfirm msg answer])).

(** [sleep]: the timer promise, awaited. *)
Definition sleep (ms : Z) : M unit := emit (ESleep ms).

(** [await fetch(...)] up to the point where the response (or the
    rejection) is back. *)
Definition fetch (env : Env) (req : Request) : M FetchOutcome :=
  fun w =>
    let started := trace w ++ [EFetchStart req] in
    let out := endpoint env started req in
    (out, mkWorld (document w) (started ++ [EFetchEnd out])).

Definition document_querySelector (sel : string) : M (option Element) :=
  fun w =>
    (querySelector (document w) sel,
     mkWorld (document w) (trace w ++ [EQuerySelector sel])).

Definition element_querySelectorAll (e : Element) (sel : string) : M (list Element) :=
  fun w =>
    (querySelectorAll e sel,
     mkWorld (document w) (trace w ++ [EQuerySelectorAll sel])).

(** [expandBtn.click()]: the page reacts. *)
Definition click (env : Env) : M unit :=
  fun w => (tt, mkWorld (click_effect env (document w)) (trace w ++ [EClick])).

(** ** Code shared by the two variants *)

(** *** The block request *)

(** The result object of [blockUser]: [None] is a key that the object
    literal does not have. *)
Record BlockResult : Type := mkResult {
  success : bool;
  uid : option string;
  msg : option JSValue
}.

Definition modify_url : string := "https://api.bilibili.com/x/relation/modify".

(** A string-or-null as a [URLSearchParams] value. *)
Definition toParam (v : option string) : string :=
  match v with
  | Some s => s
  | None => "null"
  end.

(** The [URLSearchParams] body and the [fetch] options. *)
Definition blockRequest (token : option string) (target : string) : Request :=
  {| url := modify_url;
     method := "POST";
     credentials := "include";
     headers := [("Content-Type", "application/x-www-form-urlencoded")];
     body := [("fid", target); ("act", "5"); ("re_src", "11");
              ("jsonp", "jsonp"); ("csrf", toParam token)] |}.

(** The [catch] block. *)
Definition networkError (target : string) : M BlockResult :=
  console_error [Lit "❌ Network error blocking UID "; Str target] ;;
  ret {| success := false; uid := Some target; msg := Some (JStr "Network Error") |}.

(** What follows [const data = await res.json()] inside the [try]:
    reading the code of null throws, and so does the template literal of
    the warning when the message does not convert to a string; the
    [catch] block takes over in both cases. *)
Definition interpretBody (target : string) (data : JSValue) : M BlockResult :=
  match getProp data "code" with
  | None => networkError target
  | Some code =>
      if strict_eq_zero code then
        console_log [Lit "🚫 Blocked UID: "; Str target] ;;
        ret {| success := true; uid := Some target; msg := None |}
      else
        match getProp data "message" with
        | None => networkError target
        | Some message =>
            if toString_throws message then networkError target
            else
              console_warn [Lit "⚠️ Failed to block UID "; Str target; Lit ": ";
                            Val message] ;;
              ret {| success := false; uid := Some target; msg := Some message |}
        end
  end.

Definition blockUser (env : Env) (target : string) : M BlockResult :=
  if falsy (csrf_token env) then
    ret {| success := false; uid := None; msg := Some (JStr "Not Logged In") |}
  else
    out <- fetch env (blockRequest (csrf_token env) target) ;;
    match out with
    | FetchRejected => networkError target
    | FetchResolved res =>
        match json res with
        | None => networkError target
        | Some data => interpretBody target data
        end
    end.

(** *** The deduplication set *)

(** A JS [Set] of strings: its elements in insertion order. *)
Definition JSSet : Type := list string.

Definition Set_has (s : JSSet) (x : string) : bool :=
  existsb (String.eqb x) s.

Definition Set_add (s : JSSet) (x : string) : JSSet :=
  if Set_has s x then s else s ++ [x].

(** The [links.forEach] callback. *)
Definition visitLink (uids : JSSet) (link : Element) : JSSet :=
  match parseUidFromUrl (href link) with
  | Some id => if falsy (Some id) then uids else Set_add uids id
  | None => uids
  end.

(** [links.forEach(...)] on a fresh set, then [Array.from(uids)]. *)
Definition collectUids (links : list Element) : list string :=
  fold_left visitLink links [].

(** *** The batch loop *)

Record LoopState : Type := mkLoop {
  i : Z;
  successCount : Z
}.

(** The text of the overlay in round [index] of the loop. *)
Definition progressText (index total : Z) (target : string) : Template :=
  [Lit "Blocking: "; Num (index + 1); Lit "/"; Num total; Lit nl; Lit "UID: "; Str target].

(** One round of the [for] loop, [i++] included. *)
Definition loopBody (env : Env) (interval total : Z) (target : string)
    (st : LoopState) : M LoopState :=
  emit (EOverlayText (progressText (i st) total target)) ;;
  result <- blockUser env target ;;
  let count := if success result then successCount st + 1 else successCount st in
  sleep interval ;;
  ret {| i := i st + 1; successCount := count |}.

(** The [for] loop over the identifiers still ahead, [uidArray[i]],
    [uidArray[i+1]], ... *)
Fixpoint forLoop (env : Env) (interval total : Z) (ahead : list string)
    (st : LoopState) : M LoopState :=
  match ahead with
  | [] => ret st
  | target :: more =>
      st' <- loopBody env interval total target st ;;
      forLoop env interval total more st'
  end.

Definition summaryText (count total : Z) : Template :=
  [Lit "✅ Batch block complete."; Lit nl; Lit "Successfully blocked: ";
   Num count; Lit "/"; Num total].

(** [createStatusOverlay]: the styled [div] appended to the body. *)
Definition createStatusOverlay : M unit := emit EOverlayCreate.

(** Steps 4 to 6 of [startBatchBlock], the same in both variants:
    overlay, counter, loop, cleanup and summary. *)
Definition runBatch (env : Env) (interval : Z) (uidArray : list string) : M unit :=
  let total := Z.of_nat (length uidArray) in
  createStatusOverlay ;;
  st <- forLoop env interval total uidArray {| i := 0; successCount := 0 |} ;;
  emit EOverlayRemove ;;
  alert (summaryText (successCount st) total).

(** ** Variant 1: [src/main.js] *)

Module Main.

Record Config : Type := mkConfig {
  containerSelector : string;
  upLinkSelector : string;
  blockInterval : Z
}.

Definition CONFIG : Config :=
  {| containerSelector := ".recommend-list-v1";
     upLinkSelector := ".video-page-card-small .upname a";
     blockInterval := 300 |}.

Definition containerNotFoundText : Template :=
  [Lit "❌ Container not found ("; Str (containerSelector CONFIG);
   Lit "). Page structure might have changed."].

Definition getRecommendationUids : M (list string) :=
  container <- document_querySelector (containerSelector CONFIG) ;;
  match container with
  | None => alert containerNotFoundText ;; ret []
  | Some container =>
      links <- element_querySelectorAll container (upLinkSelector CONFIG) ;;
      let uids := collectUids links in
      console_log [Lit "📥 Found "; Num (Z.of_nat (length uids));
                   Lit " unique creators in the list."] ;;
      ret uids
  end.

Definition loginText : Template := [Lit "Please login to Bilibili first."].

Definition noCreatorsText : Template :=
  [Lit "⚠️ No creators found. Wait for the list to load or scroll down slightly."].

Definition confirmText (n : Z) : Template :=
  [Lit "Found "; Num n; Lit " creators in "; Lit dq; Lit "Up Next"; Lit dq;
   Lit " & Recommendations."; Lit nl; Lit nl;
   Lit "Are you sure you want to BLOCK them all?"].

Definition startBatchBlock (env : Env) : M unit :=
  if falsy (csrf_token env) then alert loginText
  else
    uidArray <- getRecommendationUids ;;
    if Z.of_nat (length uidArray) =? 0 then alert noCreatorsText
    else
      ok <- confirm env (confirmText (Z.of_nat (length uidArray))) ;;
      if negb ok then ret tt
      else runBatch env (blockInterval CONFIG) uidArray.

End Main.

(** ** Variant 2: the script with the expansion step *)

Module Expand.

Record Config : Type := mkConfig {
  containerSelector : string;
  expandBtnSelector : string;
  upLinkSelector : string;
  blockInterval : Z;
  expandWaitTime : Z
}.

Definition CONFIG : Config :=
  {| containerSelector := ".recommend-list-v1";
     expandBtnSelector := ".recommend-list-v1 .rec-footer";
     upLinkSelector := ".video-page-card-small .upname a";
     blockInterval := 300;
     expandWaitTime := 1500 |}.

(** [expandBtn && expandBtn.offsetParent !== null] *)
Definition present_and_visible (expandBtn : option Element) : bool :=
  match expandBtn with
  | Some btn =>
      match offsetParent btn with
      | Some _ => true
      | None => false
      end
  | None => false
  end.

Definition expandFoundText : Template :=
  [Lit "🔽 Found "; Lit dq; Lit "Expand"; Lit dq; Lit " button. Clicking..."].

Definition expandSkippedText : Template :=
  [Lit "ℹ️ "; Lit dq; Lit "Expand"; Lit dq;
   Lit " button not found or already expanded."].

Definition expandListIfNeeded (env : Env) : M unit :=
  expandBtn <- document_querySelector (expandBtnSelector CONFIG) ;;
  if present_and_visible expandBtn then
    console_log expandFoundText ;;
    click env ;;
    sleep (expandWaitTime CONFIG)
  else
    console_log expandSkippedText.

Definition getRecommendationUids : M (list string) :=
  container <- document_querySelector (containerSelector CONFIG) ;;
  match container with
  | None => ret []
  | Some container =>
      links <- element_querySelectorAll container (upLinkSelector CONFIG) ;;
      let uids := collectUids links in
      console_log [Lit "📥 Found "; Num (Z.of_nat (length uids));
                   Lit " unique creators."] ;;
      ret uids
  end.

Definition loginText : Template := [Lit "Please login to Bilibili first."].

Definition noCreatorsText : Template :=
  [Lit "⚠️ No creators found. Please check page structure."].

Definition confirmText (n : Z) : Template :=
  [Lit "Found "; Num n; Lit " creators (List Expanded).";
   Lit nl; Lit nl; Lit "Are you sure you want to BLOCK them all?"].

Definition startBatchBlock (env : Env) : M unit :=
  if falsy (csrf_token env) then alert loginText
  else
    expandListIfNeeded env ;;
    uidArray <- getRecommendationUids ;;
    if Z.of_nat (length uidArray) =? 0 then alert noCreatorsText
    else
      ok <- confirm env (confirmText (Z.of_nat (length uidArray))) ;;
      if negb ok then ret tt
      else runBatch env (blockInterval CONFIG) uidArray.

End Expand.

(** * Vocabulary of the properties *)

Fixpoint all_chars (p : ascii -> bool) (s : string) : bool :=
  match s with
  | String c s' => p c && all_chars p s'
  | EmptyString => true
  end.

Definition head_in (p : ascii -> bool) (s : string) : bool :=
  match s with
  | String c _ => p c
  | EmptyString => false
  end.

(** The literal followed by one character of the class occurs in [s]
    right after the prefix [pre]. *)
Definition occurs_after (lit : string) (cls : ascii -> bool) (pre s : string) : Prop :=
  exists c tail, cls c = true /\ s = (pre ++ lit ++ String c tail)%string.

(** ** The deduplication, in the words of the specification *)

(** The identifiers of the links that carry one, in DOM order. *)
Definition parsed_ids (links : list Element) : list string :=
  flat_map (fun link =>
              match parseUidFromUrl (href link) with
              | Some id => [id]
              | None => []
              end) links.

Definition differs (x y : string) : bool := negb (String.eqb y x).

(** Duplicates collapsed to their first occurrence. *)
Fixpoint keep_first (ids : list string) : list string :=
  match ids with
  | [] => []
  | x :: more => x :: filter (differs x) (keep_first more)
  end.

(** The number of duplicates: the entries that repeat in what follows
    them (a value present m times counts m-1 times). *)
Fixpoint duplicates (ids : list string) : nat :=
  match ids with
  | [] => 0%nat
  | x :: more => ((if existsb (String.eqb x) more then 1 else 0) + duplicates more)%nat
  end.

Definition numeric_id (id : string) : Prop :=
  id <> EmptyString /\ all_chars is_digit id = true.


(** ** The digit run after the first occurrence of the marker *)

(** What follows the first occurrence of [lit] in [s], if it occurs. *)
Fixpoint after_first (lit s : string) : option string :=
  match strip_literal lit s with
  | Some rest => Some rest
  | None =>
      match s with
      | String _ s' => after_first lit s'
      | EmptyString => None
      end
  end.

(** The digit run that follows the first occurrence of the host marker,
    whether or not it is empty. *)
Definition digits_after_first_marker (url : string) : option string :=
  match after_first space_marker url with
  | Some rest => Some (take_while is_digit rest)
  | None => None
  end.

(** An identifier that the set does not hold. *)
Definition fresh_for (acc : JSSet) (y : string) : bool := negb (Set_has acc y).

(** ** A page fixture *)

Definition anchor (h : string) : Element := mkElement h None (fun _ => []).

Definition fixture_links : list Element :=
  [anchor "https://space.bilibili.com/22?from=rec";
   anchor "https://space.bilibili.com/11/";
   anchor "https://www.bilibili.com/video/BV1xx411c7mD";
   anchor "https://space.bilibili.com/22";
   anchor "https://space.bilibili.com/33?spm_id_from=333.788"].

Definition page_body : Element := mkElement EmptyString None (fun _ => []).

Definition fixture_container : Element :=
  mkElement EmptyString (Some page_body)
    (fun sel => if String.eqb sel ".video-page-card-small .upname a"
                then fixture_links else []).

Definition visible_footer : Element := mkElement EmptyString (Some fixture_container) (fun _ => []).
Definition hidden_footer : Element := mkElement EmptyString None (fun _ => []).

(** A page with the recommendation list and, optionally, its footer. *)
Definition fixture_document (footer : option Element) : Document :=
  mkDocument (fun sel =>
    if String.eqb sel ".recommend-list-v1" then Some fixture_container
    else if String.eqb sel ".recommend-list-v1 .rec-footer" then footer
    else None).

(** A page without the recommendation list. *)
Definition bare_document : Document := mkDocument (fun _ => None).

(** ** Reading a trace *)

(** The status code inside the body of a reply, when the body parses
    and has one to read. *)
Definition reply_code (out : FetchOutcome) : option JSValue :=
  match out with
  | FetchRejected => None
  | FetchResolved res =>
      match json res with
      | Some data => getProp data "code"
      | None => None
      end
  end.

(** The reply is a body that parses and whose code is 0. *)
Definition accepted_reply (out : FetchOutcome) : bool :=
  match reply_code out with
  | Some code => strict_eq_zero code
  | None => false
  end.

(** The target of a block request: its [fid] parameter. *)
Definition fid (req : Request) : string :=
  match body req with
  | (_, target) :: _ => target
  | [] => EmptyString
  end.

(** The calls and the waits of a run, as they follow one another. *)
Inductive Step : Type :=
| Call (target : string)
| Return
| Wait (ms : Z).

Fixpoint schedule (events : list Event) : list Step :=
  match events with
  | [] => []
  | EFetchStart req :: more => Call (fid req) :: schedule more
  | EFetchEnd _ :: more => Return :: schedule more
  | ESleep ms :: more => Wait ms :: schedule more
  | _ :: more => schedule more
  end.


(** The text of the overlay, update after update. *)
Fixpoint overlay_texts (events : list Event) : list Template :=
  match events with
  | [] => []
  | EOverlayText t :: more => t :: overlay_texts more
  | _ :: more => overlay_texts more
  end.

(** Events by the state of the orchestrator they belong to. *)
Definition is_notification (e : Event) : bool :=
  match e with
  | EAlert _ | EConsole _ _ => true
  | _ => false
  end.

Definition is_confirmation (e : Event) : bool :=
  match e with
  | EConfirm _ _ => true
  | _ => false
  end.

Definition is_running (e : Event) : bool :=
  match e with
  | EOverlayCreate | EOverlayText _ | EOverlayRemove
  | EFetchStart _ | EFetchEnd _ => true
  | _ => false
  end.

Definition is_request (e : Event) : bool :=
  match e with
  | EFetchStart _ => true
  | _ => false
  end.

Definition is_click_or_wait (e : Event) : bool :=
  match e with
  | EClick | ESleep _ => true
  | _ => false
  end.

(** The world after more events. *)
Definition after (w : World) (events : list Event) : World :=
  mkWorld (document w) (trace w ++ events).

(** ** The states of the batch loop *)

(** The loop states that a run over [uidArray] started in the world
    [w0] goes through, each with the world it is reached in. *)
Inductive LoopReach (env : Env) (interval : Z) (uidArray : list string) (w0 : World)
  : LoopState -> World -> Prop :=
| reach_start :
    LoopReach env interval uidArray w0 {| i := 0; successCount := 0 |} w0
| reach_round (st : LoopState) (w : World) (target : string) :
    LoopReach env interval uidArray w0 st w ->
    i st < Z.of_nat (length uidArray) ->
    nth_error uidArray (Z.to_nat (i st)) = Some target ->
    LoopReach env interval uidArray w0
      (fst (loopBody env interval (Z.of_nat (length uidArray)) target st w))
      (snd (loopBody env interval (Z.of_nat (length uidArray)) target st w)).

(** ** The rounds of the loop, as the properties name them *)

(** The counter after the round for [target] that starts in [st]. *)
Definition round_count (env : Env) (total : Z) (target : string)
    (st : LoopState) (w : World) : Z :=
  if success (fst (blockUser env target
                     (after w [EOverlayText (progressText (i st) total target)])))
  then successCount st + 1 else successCount st.

(** The calls and the wait of one round. *)
Definition round_steps (interval : Z) (target : string) : list Step :=
  [Call target; Return; Wait interval].

(** The overlay texts of the rounds for [ahead], the first of them
    being round [index]. *)
Fixpoint progress_from (index total : Z) (ahead : list string) : list Template :=
  match ahead with
  | [] => []
  | target :: more =>
      progressText index total target :: progress_from (index + 1) total more
  end.

(** ** Environments for the examples *)

Definition code_only (code : Z) : FetchOutcome :=
  FetchResolved (mkResponse 200 (Some (JObj [("code"%string, JNum code)]))).

(** The provider accepts every target but 33. *)
Definition fixture_endpoint (_ : list Event) (req : Request) : FetchOutcome :=
  if String.eqb (fid req) "33" then code_only (-6) else code_only 0.

Definition fixture_env (token : option string) : Env :=
  mkEnv token fixture_endpoint (fun _ _ => true) (fun d => d).

(** The provider turns every request down with HTTP 412 and a JSON body
    of its own. *)
Definition banned_body : JSValue :=
  JObj [("code"%string, JNum (-412)); ("message"%string, JStr "request was banned")].

Definition banned_env : Env :=
  mkEnv (Some "token"%string)
        (fun _ _ => FetchResolved (mkResponse 412 (Some banned_body)))
        (fun _ _ => true) (fun d => d).

(** The provider rejects with a message that does not convert to a
    string. *)
Definition unprintable_body : JSValue :=
  JObj [("code"%string, JNum (-1));
        ("message"%string, JObj [("toString"%string, JNum 1)])].

Definition unprintable_env : Env :=
  mkEnv (Some "tok"%string)
        (fun _ _ => FetchResolved (mkResponse 200 (Some unprintable_body)))
        (fun _ _ => true) (fun d => d).

(** * The rest of the script *)

(** ** Script load *)

Definition notLoggedInWarning : Template :=
  [Lit "⚠️ bili_jct not found. Please ensure you are logged in."].

(** The top-level statements of [src/main.js] that read the credential:
    the value of [csrf_token] and what the console shows. *)
Definition loadScript (cookie : string) : option string * list Event :=
  let token := getCsrfToken cookie in
  if falsy token then (token, [EConsole WarnLevel notLoggedInWarning])
  else (token, []).

(** ** The start button *)

(** What the script assigns to the button's event properties. *)
Inductive Handler : Type :=
| SetBackgroundColor (color : string)
| RunStartBatchBlock.

(** An element of the page as far as the script touches it. *)
Record Node : Type := mkNode {
  tagName : string;
  id_attr : string;
  textContent : string;
  style : list (string * string);
  onmouseover : option Handler;
  onmouseout : option Handler;
  onclick : option Handler
}.

(** The elements of the document, in document order; [appendChild] on
    the body puts an element last. *)
Definition Page : Type := list Node.

Definition getElementById (page : Page) (name : string) : option Node :=
  find (fun n => String.eqb (id_attr n) name) page.

(** [style.key = value]: the property keeps its place when it is set
    already. *)
Fixpoint style_set (key value : string) (st : list (string * string))
  : list (string * string) :=
  match st with
  | [] => [(key, value)]
  | (k, v) :: more =>
      if String.eqb k key then (k, value) :: more
      else (k, v) :: style_set key value more
  end.

Definition style_get (key : string) (st : list (string * string)) : option string :=
  match find (fun kv => String.eqb (fst kv) key) st with
  | Some kv => Some (snd kv)
  | None => None
  end.

(** [Object.assign(element.style, {...})]. *)
Definition style_assign (st props : list (string * string)) : list (string * string) :=
  fold_left (fun acc kv => style_set (fst kv) (snd kv) acc) props st.

Definition startButtonStyle : list (string * string) :=
  style_assign []
    [("position", "fixed"); ("top", "150px"); ("right", "0px");
     ("padding", "8px 12px"); ("backgroundColor", "#FF6699");
     ("color", "white"); ("border", "none");
     ("borderTopLeftRadius", "6px"); ("borderBottomLeftRadius", "6px");
     ("cursor", "pointer"); ("zIndex", "99999"); ("fontSize", "13px");
     ("fontWeight", "bold"); ("boxShadow", "-2px 2px 5px rgba(0,0,0,0.2)")].

(** The button that [createStartButton] builds, up to its label. *)
Definition startButton (label : string) : Node :=
  {| tagName := "button";
     id_attr := "batch-block-btn";
     textContent := label;
     style := startButtonStyle;
     onmouseover := Some (SetBackgroundColor "#ff4d85");
     onmouseout := Some (SetBackgroundColor "#FF6699");
     onclick := Some RunStartBatchBlock |}.

(** [createStartButton], the label being the only difference between
    the variants. *)
Definition createStartButton (label : string) (page : Page) : Page :=
  match getElementById page "batch-block-btn" with
  | Some _ => page
  | None => page ++ [startButton label]
  end.

Definition Main_createStartButton : Page -> Page := createStartButton "🚫 Block List".
Definition Expand_createStartButton : Page -> Page := createStartButton "🚫 Block All".

(** The browser runs the handler of a pointer event on the element. *)
Definition run_handler (h : option Handler) (n : Node) : Node :=
  match h with
  | Some (SetBackgroundColor color) =>
      {| tagName := tagName n;
         id_attr := id_attr n;
         textContent := textContent n;
         style := style_set "backgroundColor" color (style n);
         onmouseover := onmouseover n;
         onmouseout := onmouseout n;
         onclick := onclick n |}
  | _ => n
  end.

Inductive Pointer : Type := PointerOver | PointerOut.

Definition pointer_event (n : Node) (e : Pointer) : Node :=
  match e with
  | PointerOver => run_handler (onmouseover n) n
  | PointerOut => run_handler (onmouseout n) n
  end.

Definition pointer_events (n : Node) (es : list Pointer) : Node :=
  fold_left pointer_event es n.

(** How many elements of the page carry the identifier. *)
Definition count_id (name : string) (page : Page) : nat :=
  length (filter (fun n => String.eqb (id_attr n) name) page).

(** ** More vocabulary for traces *)

(** The targets of the calls of a schedule, in order. *)
Fixpoint call_targets (steps : list Step) : list string :=
  match steps with
  | [] => []
  | Call target :: more => target :: call_targets more
  | _ :: more => call_targets more
  end.

(** The time a schedule spends waiting. *)
Fixpoint total_wait (steps : list Step) : Z :=
  match steps with
  | [] => 0
  | Wait ms :: more => ms + total_wait more
  | _ :: more => total_wait more
  end.

Definition is_click (e : Event) : bool :=
  match e with
  | EClick => true
  | _ => false
  end.

Definition is_overlay_create (e : Event) : bool :=
  match e with
  | EOverlayCreate => true
  | _ => false
  end.

Definition is_overlay_remove (e : Event) : bool :=
  match e with
  | EOverlayRemove => true
  | _ => false
  end.

(** The events that a round of the batch loop can produce. *)
Definition is_round_event (interval : Z) (e : Event) : bool :=
  match e with
  | EOverlayText _ | EFetchStart _ | EFetchEnd _ | EConsole _ _ => true
  | ESleep ms => ms =? interval
  | _ => false
  end.

(** A page that only has the profile links of the fixture, none of
    which carries an identifier. *)
Definition plain_container : Element :=
  mkElement EmptyString (Some page_body)
    (fun _ => [anchor "https://www.bilibili.com/video/BV1xx411c7mD"]).

Definition plain_document : Document :=
  mkDocument (fun sel =>
    if String.eqb sel ".recommend-list-v1" then Some plain_container else None).

(** The user who declines. *)
Definition declining_env : Env :=
  mkEnv (Some "tok"%string) fixture_endpoint (fun _ _ => false) (fun d => d).

(** ** The orchestrator, step by step *)

(** What the extractor of either variant returns on a document. *)
Definition extracted (d : Document) : list string :=
  match querySelector d ".recommend-list-v1" with
  | Some container =>
      collectUids (querySelectorAll container ".video-page-card-small .upname a")
  | None => []
  end.

(** The steps of [startBatchBlock] that follow the extraction, the same
    in both variants up to the two texts and the delay. *)
Definition finish (env : Env) (noCreators : Template) (confirmText : Z -> Template)
    (interval : Z) (uidArray : list string) : M unit :=
  if Z.of_nat (length uidArray) =? 0 then alert noCreators
  else
    ok <- confirm env (confirmText (Z.of_nat (length uidArray))) ;;
    if negb ok then ret tt
    else runBatch env interval uidArray.

(** The events that the steps after the extraction can produce. *)
Definition is_finish_event (interval : Z) (e : Event) : bool :=
  match e with
  | EAlert _ | EConfirm _ _ | EOverlayCreate | EOverlayRemove => true
  | _ => is_round_event interval e
  end.

(** The events that the extractor can produce. *)
Definition is_extraction_event (e : Event) : bool :=
  match e with
  | EQuerySelector _ | EQuerySelectorAll _ | EConsole _ _ | EAlert _ => true
  | _ => false
  end.

(** No overlay and no request unless the user said yes first, and the
    question is asked once. *)
Definition confirmed_before_running (events : list Event) : Prop :=
  existsb is_running events = true ->
  exists pre msg post,
    events = pre ++ EConfirm msg true :: post
    /\ existsb is_running pre = false
    /\ existsb is_confirmation pre = false
    /\ existsb is_confirmation post = false.

(** What the user sees and what goes out, in order: the texts of the
    overlay and the targets of the requests. *)
Fixpoint display_and_calls (events : list Event) : list (Template + string) :=
  match events with
  | [] => []
  | EOverlayText t :: more => inl t :: display_and_calls more
  | EFetchStart req :: more => inr (fid req) :: display_and_calls more
  | _ :: more => display_and_calls more
  end.

(** Round by round from round [index] on: the progress text, then the
    call. *)
Fixpoint text_then_call (index total : Z) (ahead : list string)
  : list (Template + string) :=
  match ahead with
  | [] => []
  | target :: more =>
      inl (progressText index total target) :: inr target
        :: text_then_call (index + 1) total more
  end.

(** The start button with another background colour. *)
Definition startButtonColoured (label color : string) : Node :=
  {| tagName := "button";
     id_attr := "batch-block-btn";
     textContent := label;
     style := style_set "backgroundColor" color startButtonStyle;
     onmouseover := Some (SetBackgroundColor "#ff4d85");
     onmouseout := Some (SetBackgroundColor "#FF6699");
     onclick := Some RunStartBatchBlock |}.

(** The colour that the last pointer event leaves, [idle] when there
    was none. *)
Definition hover_colour (idle : string) (es : list Pointer) : string :=
  match last es PointerOut with
  | PointerOver => match es with [] => idle | _ => "#ff4d85" end
  | PointerOut => match es with [] => idle | _ => "#FF6699" end
  end.

(** A page that has a heading and nothing else. *)
Definition heading : Node :=
  {| tagName := "h1"; id_attr := "viewbox_report"; textContent := "video";
     style := []; onmouseover := None; onmouseout := None; onclick := None |}.

(** The confirmation dialog comes up at most once. *)
Definition asked_at_most_once (events : list Event) : Prop :=
  (length (filter is_confirmation events) <= 1)%nat.

(** * Properties *)

(** ** Leftmost match of [lit(cls+)] *)

Section Regex.

Variable lit : string.
Variable cls : ascii -> bool.

Lemma strip_literal_sound : forall l s r,
  strip_literal l s = Some r -> s = (l ++ r)%string.
Proof.
  induction l as [|a l IH]; intros s r H; simpl in *.
  - now inversion H.
  - destruct s as [|b s]; [discriminate|].
    destruct (Ascii.eqb_spec a b) as [->|]; [|discriminate].
    now rewrite (IH _ _ H).
Qed.

Lemma strip_literal_complete : forall l r,
  strip_literal l (l ++ r)%string = Some r.
Proof.
  induction l as [|a l IH]; intros r; simpl; [reflexivity|].
  now rewrite Ascii.eqb_refl.
Qed.

Lemma take_while_all : forall s, all_chars cls (take_while cls s) = true.
Proof.
  induction s as [|c s IH]; simpl; [reflexivity|].
  destruct (cls c) eqn:E; simpl; [now rewrite E|reflexivity].
Qed.

Lemma take_while_split : forall s,
  exists r, s = (take_while cls s ++ r)%string /\ head_in cls r = false.
Proof.
  induction s as [|c s [r [Hs Hr]]]; simpl.
  - exists EmptyString. now split.
  - destruct (cls c) eqn:E; simpl.
    + exists r. split; [now rewrite <- Hs|assumption].
    + exists (String c s). now split.
Qed.

Lemma take_while_app : forall d r,
  all_chars cls d = true -> head_in cls r = false ->
  take_while cls (d ++ r)%string = d.
Proof.
  induction d as [|c d IH]; intros r Hd Hr; simpl in *.
  - destruct r as [|c r]; simpl in *; [reflexivity|now rewrite Hr].
  - apply andb_true_iff in Hd as [Hc Hd]. rewrite Hc.
    now rewrite IH.
Qed.

Lemma match_here_sound : forall s g,
  match_here lit cls s = Some g ->
  g <> EmptyString /\ all_chars cls g = true /\
  exists r, s = (lit ++ g ++ r)%string /\ head_in cls r = false.
Proof.
  unfold match_here. intros s g H.
  destruct (strip_literal lit s) as [rest|] eqn:E; [|discriminate].
  apply strip_literal_sound in E. subst s.
  pose proof (take_while_all rest) as Hall.
  destruct (take_while_split rest) as [r [Hs Hr]].
  destruct (take_while cls rest) as [|c run] eqn:T; [discriminate|].
  inversion H; subst g. split; [discriminate|]. split; [assumption|].
  exists r. split; [now rewrite <- Hs|assumption].
Qed.

Lemma match_here_complete : forall g r,
  g <> EmptyString -> all_chars cls g = true -> head_in cls r = false ->
  match_here lit cls (lit ++ g ++ r)%string = Some g.
Proof.
  intros g r Hne Hall Hr. unfold match_here.
  rewrite strip_literal_complete, (take_while_app _ _ Hall Hr).
  destruct g; [contradiction|reflexivity].
Qed.

Lemma match_here_none : forall s,
  match_here lit cls s = None <-> ~ occurs_after lit cls EmptyString s.
Proof.
  intros s. unfold match_here, occurs_after. split.
  - intros H [c [tail [Hc Hs]]]. simpl in Hs. subst s.
    rewrite strip_literal_complete in H. simpl in H.
    rewrite Hc in H. discriminate.
  - intros H.
    destruct (strip_literal lit s) as [rest|] eqn:E; [|reflexivity].
    apply strip_literal_sound in E. subst s.
    destruct rest as [|c rest]; simpl; [reflexivity|].
    destruct (cls c) eqn:Hc; [|reflexivity].
    exfalso. apply H. now exists c, rest.
Qed.

(** The result of a match: never the empty string, only characters
    of the class. *)
Lemma regex_match_shape : forall s g,
  regex_match lit cls s = Some g ->
  g <> EmptyString /\ all_chars cls g = true.
Proof.
  induction s as [|c s IH]; intros g H; simpl in H.
  - destruct (match_here lit cls EmptyString) eqn:E; [|discriminate].
    inversion H; subst. apply match_here_sound in E. tauto.
  - destruct (match_here lit cls (String c s)) eqn:E.
    + inversion H; subst. apply match_here_sound in E. tauto.
    + now apply IH.
Qed.

(** No match at all: the literal followed by a class character occurs
    nowhere. *)
Lemma regex_match_none : forall s,
  regex_match lit cls s = None <->
  (forall pre, ~ occurs_after lit cls pre s).
Proof.
  induction s as [|c s IH]; simpl.
  - destruct (match_here lit cls EmptyString) as [g0|] eqn:E.
    + split; [discriminate|]. intros H. exfalso.
      apply match_here_sound in E as (Hne & Hall & r & Hs & _).
      destruct g0 as [|d g]; [contradiction|].
      simpl in Hall. apply andb_true_iff in Hall as [Hd _].
      apply (H EmptyString). exists d, (g ++ r)%string. now split.
    + split; [|reflexivity]. intros _ pre [d [tail [Hd Hs]]].
      destruct pre; simpl in Hs; [|discriminate].
      apply match_here_none in E. apply E. now exists d, tail.
  - destruct (match_here lit cls (String c s)) as [g0|] eqn:E.
    + split; [discriminate|]. intros H. exfalso.
      apply match_here_sound in E as (Hne & Hall & r & Hs & _).
      destruct g0 as [|d g]; [contradiction|].
      simpl in Hall. apply andb_true_iff in Hall as [Hd _].
      apply (H EmptyString). exists d, (g ++ r)%string. now split.
    + rewrite IH. split.
      * intros H pre [d [tail [Hd Hs]]].
        destruct pre as [|a pre]; simpl in Hs.
        -- apply match_here_none in E. apply E. now exists d, tail.
        -- inversion Hs; subst. apply (H pre). now exists d, tail.
      * intros H pre [d [tail [Hd Hs]]].
        apply (H (String c pre)). exists d, tail. split; [assumption|].
        simpl. now rewrite Hs.
Qed.

(** The leftmost match wins: nothing matches inside [pre], then the
    pattern matches right after it. *)
Lemma regex_match_leftmost : forall pre g r,
  (forall p1 p2, pre = (p1 ++ p2)%string -> p2 <> EmptyString ->
     ~ occurs_after lit cls EmptyString (p2 ++ lit ++ g ++ r)%string) ->
  g <> EmptyString -> all_chars cls g = true -> head_in cls r = false ->
  regex_match lit cls (pre ++ lit ++ g ++ r)%string = Some g.
Proof.
  induction pre as [|a pre IH]; intros g r Hno Hne Hall Hr.
  - simpl. pose proof (match_here_complete g r Hne Hall Hr) as E.
    destruct (lit ++ g ++ r)%string eqn:S; simpl; now rewrite E.
  - simpl.
    assert (match_here lit cls (String a (pre ++ lit ++ g ++ r)) = None) as E.
    { apply match_here_none. apply (Hno EmptyString (String a pre)); [reflexivity|discriminate]. }
    rewrite E. apply IH; try assumption.
    intros p1 p2 Hp Hp2. apply (Hno (String a p1) p2); [|assumption].
    simpl. now rewrite Hp.
Qed.


(** A successful search returns the leftmost match and its whole run
    of class characters. *)
Lemma regex_match_some : forall s g,
  regex_match lit cls s = Some g ->
  exists pre r,
    s = (pre ++ lit ++ g ++ r)%string /\ head_in cls r = false /\
    forall p, occurs_after lit cls p s -> (String.length pre <= String.length p)%nat.
Proof.
  induction s as [|c s IH]; intros g H; simpl in H.
  - destruct (match_here lit cls EmptyString) as [g0|] eqn:E; [|discriminate].
    inversion H; subst g0.
    apply match_here_sound in E as (_ & _ & r & Hs & Hr).
    exists EmptyString, r. simpl. repeat split; try assumption. intros; lia.
  - destruct (match_here lit cls (String c s)) as [g0|] eqn:E.
    + inversion H; subst g0.
      apply match_here_sound in E as (_ & _ & r & Hs & Hr).
      exists EmptyString, r. simpl. repeat split; try assumption. intros; lia.
    + destruct (IH g H) as (pre & r & Hs & Hr & Hleft).
      exists (String c pre), r. simpl. rewrite <- Hs.
      repeat split; try assumption.
      intros p [d [tail [Hd Hp]]]. destruct p as [|a p]; simpl in Hp.
      * exfalso. apply match_here_none in E. apply E. now exists d, tail.
      * inversion Hp; subst a. simpl. apply le_n_S, Hleft.
        now exists d, tail.
Qed.

End Regex.

Lemma regex_match_skip (lit : string) (cls : ascii -> bool) (a : ascii) (s : string) :
  match_here lit cls (String a s) = None ->
  regex_match lit cls (String a s) = regex_match lit cls s.
Proof. intros H. simpl. now rewrite H. Qed.


(** ** The URL parser *)

Lemma parseUidFromUrl_regex (url : string) :
  parseUidFromUrl url = regex_match space_marker is_digit url.
Proof. unfold parseUidFromUrl. now destruct (regex_match _ _ url). Qed.

Lemma parseUidFromUrl_numeric (url id : string) :
  parseUidFromUrl url = Some id -> numeric_id id.
Proof.
  rewrite parseUidFromUrl_regex. intros H.
  now apply regex_match_shape in H.
Qed.

Lemma parseUidFromUrl_absent (url : string) :
  (forall pre, ~ occurs_after space_marker is_digit pre url) ->
  parseUidFromUrl url = None.
Proof. rewrite parseUidFromUrl_regex. apply regex_match_none. Qed.

Lemma parseUidFromUrl_https (ds tail : string) :
  ds <> EmptyString -> all_chars is_digit ds = true -> head_in is_digit tail = false ->
  parseUidFromUrl ("https://space.bilibili.com/" ++ ds ++ tail)%string = Some ds.
Proof.
  intros Hne Hall Htail. rewrite parseUidFromUrl_regex.
  change ("https://space.bilibili.com/" ++ ds ++ tail)%string
    with ("https://" ++ space_marker ++ ds ++ tail)%string.
  cbn [append].
  do 8 (rewrite regex_match_skip by reflexivity).
  pose proof (match_here_complete space_marker is_digit ds tail Hne Hall Htail) as E.
  cbn [append space_marker] in *. cbn [regex_match]. now rewrite E.
Qed.

(** ** The deduplication set *)

Lemma Set_has_In (s : JSSet) (x : string) : Set_has s x = true <-> In x s.
Proof.
  unfold Set_has. rewrite existsb_exists. split.
  - intros [y [Hy E]]. apply String.eqb_eq in E. now subst.
  - intros H. exists x. split; [assumption|apply String.eqb_refl].
Qed.

Lemma differs_spec (x y : string) : differs x y = true <-> y <> x.
Proof.
  unfold differs. rewrite negb_true_iff. split.
  - intros H E. subst. now rewrite String.eqb_refl in H.
  - intros H. destruct (String.eqb_spec y x); [contradiction|reflexivity].
Qed.

Lemma filter_fresh_seen (acc : JSSet) (x : string) (l : list string) :
  Set_has acc x = true ->
  filter (fresh_for acc) (filter (differs x) l) = filter (fresh_for acc) l.
Proof.
  intros Hx. induction l as [|y l IH]; simpl; [reflexivity|].
  destruct (differs x y) eqn:D; simpl; [now rewrite IH|].
  assert (y = x) as ->.
  { destruct (String.eqb_spec y x); [assumption|].
    unfold differs in D. apply negb_false_iff, String.eqb_eq in D. assumption. }
  unfold fresh_for at 2. now rewrite Hx.
Qed.

Lemma filter_fresh_new (acc : JSSet) (x : string) (l : list string) :
  filter (fresh_for (acc ++ [x])) l = filter (fresh_for acc) (filter (differs x) l).
Proof.
  induction l as [|y l IH]; simpl; [reflexivity|].
  unfold fresh_for at 1, Set_has. rewrite existsb_app. simpl.
  rewrite orb_false_r. fold (Set_has acc y).
  unfold differs at 1.
  destruct (String.eqb y x) eqn:E; simpl.
  - rewrite orb_true_r. simpl. apply IH.
  - rewrite orb_false_r. fold (fresh_for acc y).
    destruct (fresh_for acc y); simpl; now rewrite <- IH.
Qed.

(** Adding a sequence of identifiers to a set appends, in order, the
    first occurrence of each identifier the set does not hold yet. *)
Lemma fold_Set_add (ids : list string) : forall acc : JSSet,
  fold_left Set_add ids acc = acc ++ filter (fresh_for acc) (keep_first ids).
Proof.
  induction ids as [|x ids IH]; intros acc; simpl.
  - now rewrite app_nil_r.
  - unfold Set_add at 2. unfold fresh_for at 1.
    destruct (Set_has acc x) eqn:Hx; simpl.
    + rewrite IH. now rewrite filter_fresh_seen.
    + rewrite IH, <- app_assoc. simpl. now rewrite filter_fresh_new.
Qed.

Lemma visitLink_parsed (links : list Element) : forall acc : JSSet,
  fold_left visitLink links acc = fold_left Set_add (parsed_ids links) acc.
Proof.
  induction links as [|link links IH]; intros acc; simpl; [reflexivity|].
  unfold parsed_ids in *. rewrite fold_left_app. rewrite <- IH.
  unfold visitLink at 2.
  destruct (parseUidFromUrl (href link)) as [id|] eqn:E; simpl; [|reflexivity].
  apply parseUidFromUrl_numeric in E as [Hne _].
  destruct id; [contradiction|reflexivity].
Qed.

Lemma collectUids_keep_first (links : list Element) :
  collectUids links = keep_first (parsed_ids links).
Proof.
  unfold collectUids. rewrite visitLink_parsed, fold_Set_add. simpl.
  apply filter_true.
Qed.

Lemma keep_first_In (ids : list string) (x : string) :
  In x (keep_first ids) <-> In x ids.
Proof.
  induction ids as [|y ids IH]; simpl; [tauto|].
  rewrite filter_In, IH, differs_spec.
  destruct (String.eqb_spec x y) as [->|N]; [tauto|].
  split; [tauto|]. intros [H|H]; [now left|right; tauto].
Qed.

Lemma keep_first_NoDup (ids : list string) : NoDup (keep_first ids).
Proof.
  induction ids as [|y ids IH]; simpl; constructor.
  - rewrite filter_In, differs_spec. tauto.
  - now apply NoDup_filter.
Qed.

Lemma filter_differs_length (x : string) (l : list string) :
  NoDup l ->
  (length (filter (differs x) l) + (if existsb (String.eqb x) l then 1 else 0)
   = length l)%nat.
Proof.
  induction 1 as [|y l Hy Hnd IH]; simpl; [reflexivity|].
  unfold differs at 1. rewrite (String.eqb_sym y x) at 1.
  destruct (String.eqb_spec x y) as [->|N]; simpl.
  - assert (filter (differs y) l = l) as ->; [|lia].
    rewrite <- (filter_true l) at 2. apply filter_ext_in.
    intros a Ha. apply differs_spec. intros ->. contradiction.
  - lia.
Qed.

Lemma existsb_keep_first (x : string) (ids : list string) :
  existsb (String.eqb x) (keep_first ids) = existsb (String.eqb x) ids.
Proof.
  apply eq_true_iff_eq. fold (Set_has (keep_first ids) x) (Set_has ids x).
  rewrite !Set_has_In. apply keep_first_In.
Qed.

Lemma keep_first_length (ids : list string) :
  (length (keep_first ids) + duplicates ids = length ids)%nat.
Proof.
  induction ids as [|x ids IH]; simpl; [reflexivity|].
  pose proof (filter_differs_length x (keep_first ids) (keep_first_NoDup ids)) as H.
  rewrite existsb_keep_first in H. lia.
Qed.

Lemma parsed_ids_numeric (links : list Element) :
  Forall numeric_id (parsed_ids links).
Proof.
  unfold parsed_ids. induction links as [|link links IH]; simpl; [constructor|].
  apply Forall_app. split; [|assumption].
  destruct (parseUidFromUrl (href link)) as [id|] eqn:E; constructor; [|constructor].
  now apply parseUidFromUrl_numeric in E.
Qed.

Lemma parsed_ids_app (l1 l2 : list Element) :
  parsed_ids (l1 ++ l2) = parsed_ids l1 ++ parsed_ids l2.
Proof. apply flat_map_app. Qed.

(** ** Claims about the parser and the extractor *)

(** C5. Round trip of the URL parser: the profile URL
    https://space.bilibili.com/123456?from=rec parses to 123456, and so
    does every URL of that form, whatever the digits and whatever
    follows them; a URL in which the host marker is nowhere followed by
    a digit parses to no identifier, and a link with such a URL is left
    out of the extractor's result, the other links being treated as if
    it were not there. *)
Theorem parseUidFromUrl_round_trip
    (ds tail : string) (link : Element) (before after : list Element) :
  ds <> EmptyString -> all_chars is_digit ds = true ->
  head_in is_digit tail = false ->
  (forall pre, ~ occurs_after space_marker is_digit pre (href link)) ->
  parseUidFromUrl "https://space.bilibili.com/123456?from=rec" = Some "123456"%string
  /\ parseUidFromUrl ("https://space.bilibili.com/" ++ ds ++ tail)%string = Some ds
  /\ parseUidFromUrl (href link) = None
  /\ visitLink (collectUids before) link = collectUids before
  /\ collectUids (before ++ link :: after) = collectUids (before ++ after).
Proof.
  intros Hne Hall Htail Hlack.
  pose proof (parseUidFromUrl_absent (href link) Hlack) as Hnone.
  split; [reflexivity|].
  split; [now apply parseUidFromUrl_https|].
  split; [assumption|].
  split.
  - unfold visitLink. now rewrite Hnone.
  - rewrite !collectUids_keep_first, !parsed_ids_app. simpl.
    now rewrite Hnone.
Qed.

Lemma parseUidFromUrl_round_trip_witness :
  parseUidFromUrl "https://space.bilibili.com/987?from=rec" = Some "987"%string
  /\ collectUids
       ([anchor "https://space.bilibili.com/22"]
          ++ anchor "https://www.bilibili.com/video/BV1xx411c7mD"
          :: [anchor "https://space.bilibili.com/33"])
     = ["22"%string; "33"%string].
Proof.
  destruct (parseUidFromUrl_round_trip "987" "?from=rec"
              (anchor "https://www.bilibili.com/video/BV1xx411c7mD")
              [anchor "https://space.bilibili.com/22"]
              [anchor "https://space.bilibili.com/33"])
    as (_ & H1 & _ & _ & H2).
  - discriminate.
  - reflexivity.
  - reflexivity.
  - apply regex_match_none. reflexivity.
  - split; [exact H1|]. rewrite H2. reflexivity.
Defined.

(** C9, the claim as worded: whenever the parser returns an identifier,
    it is the digit run that follows the first occurrence of the host
    marker.  This fails when the first occurrence is not followed by a
    digit and a later one is. *)
Lemma parseUidFromUrl_not_first_marker :
  ~ (forall url id, parseUidFromUrl url = Some id ->
                    digits_after_first_marker url = Some id).
Proof.
  intros H.
  specialize (H "https://space.bilibili.com/?from=space.bilibili.com/42"%string
                "42"%string eq_refl).
  discriminate H.
Qed.

(** C9, amended. For every input the parser returns null or a
    non-empty string of decimal digits.  The pattern is unanchored: the
    identifier is the whole digit run that follows the leftmost place
    where the host marker is immediately followed by a digit, wherever
    in the string that place is (inside a query parameter, say), and the
    parser returns null exactly when there is no such place. *)
Theorem parseUidFromUrl_leftmost_digit_run (url : string) :
  match parseUidFromUrl url with
  | None => forall pre, ~ occurs_after space_marker is_digit pre url
  | Some id =>
      numeric_id id /\
      exists pre rest,
        url = (pre ++ space_marker ++ id ++ rest)%string /\
        head_in is_digit rest = false /\
        forall p, occurs_after space_marker is_digit p url ->
                  (String.length pre <= String.length p)%nat
  end
  /\ parseUidFromUrl "https://example.com/?next=space.bilibili.com/42&x=1"
     = Some "42"%string.
Proof.
  split; [|reflexivity].
  destruct (parseUidFromUrl url) as [id|] eqn:E.
  - split; [now apply parseUidFromUrl_numeric in E|].
    rewrite parseUidFromUrl_regex in E. now apply regex_match_some.
  - rewrite parseUidFromUrl_regex in E. now apply regex_match_none.
Qed.

Lemma parseUidFromUrl_leftmost_digit_run_witness :
  parseUidFromUrl "https://space.bilibili.com/?from=space.bilibili.com/42" = Some "42"%string
  /\ numeric_id "42"
  /\ forall pre, ~ occurs_after space_marker is_digit pre "https://www.bilibili.com/video/BV1".
Proof.
  split; [reflexivity|]. split.
  - destruct (parseUidFromUrl_leftmost_digit_run
                "https://space.bilibili.com/?from=space.bilibili.com/42") as [H _].
    change (parseUidFromUrl "https://space.bilibili.com/?from=space.bilibili.com/42")
      with (Some "42"%string) in H.
    exact (proj1 H).
  - destruct (parseUidFromUrl_leftmost_digit_run
                "https://www.bilibili.com/video/BV1") as [H _].
    exact H.
Defined.

(** C4. When the container is in the DOM, both variants of the
    extractor return the identifiers of its profile links in DOM order,
    duplicates collapsed to their first occurrence: with N profile links
    carrying D duplicate identifiers the result has exactly N-D entries,
    no entry twice, every identifier of a link and no other, each a
    non-empty string of digits. *)
Theorem getRecommendationUids_unique_in_dom_order (w : World) (container : Element) :
  querySelector (document w) ".recommend-list-v1" = Some container ->
  let ids := parsed_ids (querySelectorAll container ".video-page-card-small .upname a") in
  let uids := fst (Main.getRecommendationUids w) in
  fst (Expand.getRecommendationUids w) = uids
  /\ uids = keep_first ids
  /\ NoDup uids
  /\ (forall x, In x uids <-> In x ids)
  /\ (duplicates ids <= length ids)%nat
  /\ length uids = (length ids - duplicates ids)%nat
  /\ Forall numeric_id uids.
Proof.
  intros Hc ids uids.
  assert (uids = keep_first ids) as Hu.
  { unfold uids, Main.getRecommendationUids, bind, document_querySelector.
    simpl. rewrite Hc. simpl. apply collectUids_keep_first. }
  assert (fst (Expand.getRecommendationUids w) = uids) as He.
  { rewrite Hu.
    unfold Expand.getRecommendationUids, bind, document_querySelector.
    simpl. rewrite Hc. simpl. apply collectUids_keep_first. }
  pose proof (keep_first_length ids) as Hlen.
  split; [assumption|]. split; [assumption|]. rewrite Hu.
  split; [apply keep_first_NoDup|].
  split; [intros x; apply keep_first_In|].
  split; [lia|]. split; [lia|].
  apply Forall_forall. intros x Hx. apply (proj1 (keep_first_In ids x)) in Hx.
  pose proof (parsed_ids_numeric
                (querySelectorAll container ".video-page-card-small .upname a")) as Hn.
  rewrite Forall_forall in Hn. apply Hn. exact Hx.
Qed.

Lemma getRecommendationUids_unique_in_dom_order_witness :
  fst (Main.getRecommendationUids (mkWorld (fixture_document None) []))
  = ["22"%string; "11"%string; "33"%string]
  /\ length (fst (Main.getRecommendationUids (mkWorld (fixture_document None) [])))
     = (4 - 1)%nat.
Proof.
  destruct (getRecommendationUids_unique_in_dom_order
              (mkWorld (fixture_document None) []) fixture_container eq_refl)
    as (_ & H1 & _ & _ & _ & H2 & _).
  split.
  - rewrite H1. reflexivity.
  - rewrite H2. reflexivity.
Defined.

(** ** The block request *)

Lemma emit_after (e : Event) (w : World) : emit e w = (tt, after w [e]).
Proof. reflexivity. Qed.

Lemma after_after (w : World) (a b : list Event) :
  after (after w a) b = after w (a ++ b).
Proof. unfold after. simpl. now rewrite app_assoc. Qed.

Lemma after_nil (w : World) : after w [] = w.
Proof. destruct w. unfold after. simpl. now rewrite app_nil_r. Qed.

Lemma falsy_false_token (tok : option string) :
  falsy tok = false -> exists c s, tok = Some (String c s).
Proof.
  destruct tok as [[|c s]|]; simpl; try discriminate. intros _. now exists c, s.
Qed.

(** Reading [message] cannot throw once reading [code] did not. *)
Lemma getProp_code_message (data code : JSValue) :
  getProp data "code" = Some code -> exists m, getProp data "message" = Some m.
Proof.
  destruct data; simpl; try discriminate; intros _; eauto.
  destruct (assoc "message" props); eauto.
Qed.

(** C2. Without a session credential (none, or an empty one) the block
    operation returns the Not Logged In failure for every identifier and
    leaves the world as it is: no event, hence no network request.  The
    orchestrator of either variant, when triggered, only shows the login
    alert and returns: no DOM query, no click, no confirmation, no
    overlay, no request, no wait. *)
Theorem unauthenticated_stays_idle (env : Env) (w : World) (target : string) :
  falsy (csrf_token env) = true ->
  blockUser env target w
  = ({| success := false; uid := None; msg := Some (JStr "Not Logged In") |}, w)
  /\ filter is_request (trace (snd (blockUser env target w))) = filter is_request (trace w)
  /\ Main.startBatchBlock env w = (tt, after w [EAlert Main.loginText])
  /\ Expand.startBatchBlock env w = (tt, after w [EAlert Expand.loginText])
  /\ forallb is_notification [EAlert Main.loginText; EAlert Expand.loginText] = true.
Proof.
  intros H.
  assert (blockUser env target w
          = ({| success := false; uid := None; msg := Some (JStr "Not Logged In") |}, w)) as E.
  { unfold blockUser. now rewrite H. }
  split; [exact E|]. split; [now rewrite E|].
  unfold Main.startBatchBlock, Expand.startBatchBlock. rewrite H.
  repeat split.
Qed.

Lemma unauthenticated_stays_idle_witness :
  getCsrfToken "buvid3=0F1E; bili_jct=; sid=abc" = None
  /\ fst (blockUser (fixture_env None) "22" (mkWorld (fixture_document None) []))
     = {| success := false; uid := None; msg := Some (JStr "Not Logged In") |}
  /\ trace (snd (Main.startBatchBlock (fixture_env (Some EmptyString))
                   (mkWorld (fixture_document None) [])))
     = [EAlert Main.loginText].
Proof.
  split; [reflexivity|]. split.
  - destruct (unauthenticated_stays_idle (fixture_env None)
                (mkWorld (fixture_document None) []) "22" eq_refl) as (H & _).
    now rewrite H.
  - destruct (unauthenticated_stays_idle (fixture_env (Some EmptyString))
                (mkWorld (fixture_document None) []) "22" eq_refl) as (_ & _ & H & _).
    now rewrite H.
Defined.

(** C3, the claim as worded: a reply whose HTTP status is not 2xx makes
    the block operation fail with the network error.  The status is
    never read: a 412 reply whose body parses is a provider rejection
    with the message of that body. *)
Lemma blockUser_ignores_status :
  ~ (forall env target w res,
       falsy (csrf_token env) = false ->
       (forall h req, endpoint env h req = FetchResolved res) ->
       (status res < 200 \/ 299 < status res) ->
       fst (blockUser env target w)
       = {| success := false; uid := Some target; msg := Some (JStr "Network Error") |}).
Proof.
  intros H.
  specialize (H banned_env "22"%string (mkWorld bare_document [])
                (mkResponse 412 (Some banned_body))
                eq_refl (fun _ _ => eq_refl)).
  assert (status (mkResponse 412 (Some banned_body)) < 200
          \/ 299 < status (mkResponse 412 (Some banned_body))) as Hs.
  { right. simpl. lia. }
  specialize (H Hs). discriminate H.
Qed.

(** C3, amended. With a credential, the result of the block operation
    is decided by the reply alone: a rejected request, a body that does
    not parse or a body whose code cannot be read gives the network
    error; a body whose code is 0 gives a success; a body with any other
    code gives a failure that carries the message of the body, unless
    that message cannot be converted to a string for the warning (an
    object with a toString member of its own, or an array holding one),
    in which case the result is the network error too.  The HTTP status
    takes no part: a reply that is not 2xx is read like any other. *)
Theorem blockUser_result_by_reply (env : Env) (w : World) (target : string)
    (out : FetchOutcome) :
  falsy (csrf_token env) = false ->
  endpoint env (trace w ++ [EFetchStart (blockRequest (csrf_token env) target)])
           (blockRequest (csrf_token env) target) = out ->
  let result := fst (blockUser env target w) in
  let network_error :=
    {| success := false; uid := Some target; msg := Some (JStr "Network Error") |} in
  (out = FetchRejected -> result = network_error)
  /\ (forall st, out = FetchResolved (mkResponse st None) -> result = network_error)
  /\ (forall st data, out = FetchResolved (mkResponse st (Some data)) ->
        getProp data "code" = None -> result = network_error)
  /\ (forall st data, out = FetchResolved (mkResponse st (Some data)) ->
        getProp data "code" = Some (JNum 0) ->
        result = {| success := true; uid := Some target; msg := None |})
  /\ (forall st data code message,
        out = FetchResolved (mkResponse st (Some data)) ->
        getProp data "code" = Some code -> code <> JNum 0 ->
        getProp data "message" = Some message ->
        toString_throws message = false ->
        result = {| success := false; uid := Some target; msg := Some message |})
  /\ (forall st data code message,
        out = FetchResolved (mkResponse st (Some data)) ->
        getProp data "code" = Some code -> code <> JNum 0 ->
        getProp data "message" = Some message ->
        toString_throws message = true ->
        result = network_error).
Proof.
  intros Htok Hout result network_error.
  unfold result, blockUser, bind, fetch. rewrite Htok. rewrite Hout.
  assert (forall code, code <> JNum 0 -> strict_eq_zero code = false) as Hz.
  { intros code Hne. destruct code as [| |b|n|s|l|l]; try reflexivity.
    destruct n; try reflexivity. now contradiction Hne. }
  repeat split.
  - intros ->. reflexivity.
  - intros st ->. reflexivity.
  - intros st data -> Hc. simpl. unfold interpretBody. now rewrite Hc.
  - intros st data -> Hc. simpl. unfold interpretBody. now rewrite Hc.
  - intros st data code message -> Hc Hne Hm Hs. simpl. unfold interpretBody.
    now rewrite Hc, Hm, (Hz code Hne), Hs.
  - intros st data code message -> Hc Hne Hm Hs. simpl. unfold interpretBody.
    now rewrite Hc, Hm, (Hz code Hne), Hs.
Qed.

Lemma blockUser_result_by_reply_witness :
  fst (blockUser banned_env "22" (mkWorld bare_document []))
  = {| success := false; uid := Some "22"%string;
       msg := Some (JStr "request was banned") |}
  /\ fst (blockUser (fixture_env (Some "tok"%string)) "22" (mkWorld bare_document []))
     = {| success := true; uid := Some "22"%string; msg := None |}
  /\ fst (blockUser unprintable_env "22" (mkWorld bare_document []))
     = {| success := false; uid := Some "22"%string; msg := Some (JStr "Network Error") |}.
Proof.
  destruct (blockUser_result_by_reply banned_env (mkWorld bare_document []) "22"
              (FetchResolved (mkResponse 412 (Some banned_body)))
              eq_refl eq_refl) as (_ & _ & _ & _ & H1 & _).
  destruct (blockUser_result_by_reply (fixture_env (Some "tok"%string))
              (mkWorld bare_document []) "22" (code_only 0)
              eq_refl eq_refl) as (_ & _ & _ & H2 & _).
  destruct (blockUser_result_by_reply unprintable_env (mkWorld bare_document []) "22"
              (FetchResolved (mkResponse 200 (Some unprintable_body)))
              eq_refl eq_refl) as (_ & _ & _ & _ & _ & H3).
  split; [|split].
  - apply (H1 412 banned_body (JNum (-412)) (JStr "request was banned"));
      try reflexivity. discriminate.
  - exact (H2 200 (JObj [("code"%string, JNum 0)]) eq_refl eq_refl).
  - apply (H3 200 unprintable_body (JNum (-1))
              (JObj [("toString"%string, JNum 1)])); try reflexivity. discriminate.
Defined.

(** C7, the claim as worded: every result carries the identifier of the
    attempted target.  The result of the unauthenticated branch has no
    identifier. *)
Lemma blockUser_unauthenticated_no_uid :
  ~ (forall env target w, uid (fst (blockUser env target w)) = Some target).
Proof.
  intros H.
  specialize (H (fixture_env None) "22"%string (mkWorld bare_document [])).
  discriminate H.
Qed.

(** C7, amended. Every invocation of the block operation returns a
    record with the success flag.  The unauthenticated branch returns the
    flag and the message Not Logged In and nothing else; every branch
    that sent the request also carries the identifier of the target.  A
    failure always has the msg field (after a provider rejection its
    value is whatever the message of the body is), a success never. *)
Theorem blockUser_result_shape (env : Env) (w : World) (target : string) :
  let result := fst (blockUser env target w) in
  (falsy (csrf_token env) = true ->
     result = {| success := false; uid := None; msg := Some (JStr "Not Logged In") |})
  /\ (falsy (csrf_token env) = false -> uid result = Some target)
  /\ (success result = false -> msg result <> None)
  /\ (success result = true -> msg result = None /\ uid result = Some target).
Proof.
  intros result. unfold result, blockUser, bind, fetch.
  destruct (falsy (csrf_token env)) eqn:Htok.
  - simpl. repeat split; try discriminate; intros; discriminate.
  - destruct (endpoint env _ _) as [|[st [data|]]]; simpl;
      try (repeat split; try discriminate; intros; discriminate).
    unfold interpretBody.
    destruct (getProp data "code") as [code|] eqn:Hc; simpl;
      try (repeat split; try discriminate; intros; discriminate).
    destruct (strict_eq_zero code); simpl;
      try (repeat split; try discriminate; intros; discriminate).
    destruct (getProp_code_message data code Hc) as [m ->].
    destruct (toString_throws m); simpl;
      repeat split; try discriminate; intros; discriminate.
Qed.

Lemma blockUser_result_shape_witness :
  fst (blockUser (fixture_env None) "22" (mkWorld bare_document []))
  = {| success := false; uid := None; msg := Some (JStr "Not Logged In") |}
  /\ uid (fst (blockUser (fixture_env (Some "tok"%string)) "33" (mkWorld bare_document [])))
     = Some "33"%string.
Proof.
  destruct (blockUser_result_shape (fixture_env None) (mkWorld bare_document []) "22")
    as (H1 & _).
  destruct (blockUser_result_shape (fixture_env (Some "tok"%string))
              (mkWorld bare_document []) "33") as (_ & H2 & _).
  split; [exact (H1 eq_refl)|exact (H2 eq_refl)].
Defined.

(** ** Runs only add events *)

Lemma schedule_app (a b : list Event) : schedule (a ++ b) = schedule a ++ schedule b.
Proof.
  induction a as [|e a IH]; simpl; [reflexivity|].
  destruct e; simpl; now rewrite ?IH.
Qed.

Lemma overlay_texts_app (a b : list Event) :
  overlay_texts (a ++ b) = overlay_texts a ++ overlay_texts b.
Proof.
  induction a as [|e a IH]; simpl; [reflexivity|].
  destruct e; simpl; now rewrite ?IH.
Qed.

Lemma last_after (w : World) (events : list Event) (e d : Event) :
  last (trace (after w (events ++ [e]))) d = e.
Proof. unfold after. simpl. rewrite app_assoc. apply last_last. Qed.

(** The events of one block request: none without a credential, else
    the request, its outcome and one console line. *)
Lemma blockUser_events (env : Env) (target : string) (w : World) :
  exists events,
    snd (blockUser env target w) = after w events
    /\ (falsy (csrf_token env) = true -> events = [])
    /\ (falsy (csrf_token env) = false ->
        exists out level line,
          events = [EFetchStart (blockRequest (csrf_token env) target);
                    EFetchEnd out; EConsole level line]).
Proof.
  unfold blockUser, bind, fetch.
  destruct (falsy (csrf_token env)) eqn:Htok.
  - exists []. simpl. rewrite after_nil. repeat split; [discriminate].
  - set (req := blockRequest (csrf_token env) target).
    set (out := endpoint env (trace w ++ [EFetchStart req]) req).
    assert (forall level line,
      mkWorld (document w) (((trace w ++ [EFetchStart req]) ++ [EFetchEnd out])
                               ++ [EConsole level line])
      = after w [EFetchStart req; EFetchEnd out; EConsole level line]) as Hw.
    { intros. unfold after. now rewrite <- !app_assoc. }
    assert (forall level line,
      exists events,
        mkWorld (document w) (((trace w ++ [EFetchStart req]) ++ [EFetchEnd out])
                                 ++ [EConsole level line]) = after w events
        /\ (false = true -> events = [])
        /\ (false = false -> exists out0 level0 line0,
              events = [EFetchStart req; EFetchEnd out0; EConsole level0 line0])) as Hex.
    { intros level line. eexists. split; [apply Hw|]. split; [discriminate|].
      intros _. now exists out, level, line. }
    destruct out as [|[st [data|]]]; simpl; try apply Hex.
    unfold interpretBody.
    destruct (getProp data "code") as [code|] eqn:Hc; simpl; try apply Hex.
    destruct (strict_eq_zero code); simpl; try apply Hex.
    destruct (getProp_code_message data code Hc) as [m ->].
    destruct (toString_throws m); simpl; apply Hex.
Qed.

Lemma blockUser_schedule (env : Env) (target : string) (w : World) :
  falsy (csrf_token env) = false ->
  exists events,
    snd (blockUser env target w) = after w events
    /\ schedule events = [Call target; Return]
    /\ overlay_texts events = [].
Proof.
  intros Htok. destruct (blockUser_events env target w) as (events & Hw & _ & Hev).
  destruct (Hev Htok) as (out & level & line & ->).
  eexists. split; [exact Hw|]. split; reflexivity.
Qed.

(** ** The batch loop *)

Lemma loopBody_state (env : Env) (interval total : Z) (target : string)
    (st : LoopState) (w : World) :
  fst (loopBody env interval total target st w)
  = {| i := i st + 1; successCount := round_count env total target st w |}.
Proof.
  unfold loopBody, round_count, bind. rewrite emit_after.
  destruct (blockUser env target _) as [result w1]. reflexivity.
Qed.

Lemma loopBody_world (env : Env) (interval total : Z) (target : string)
    (st : LoopState) (w : World) :
  snd (loopBody env interval total target st w)
  = after (snd (blockUser env target
                  (after w [EOverlayText (progressText (i st) total target)])))
          [ESleep interval].
Proof.
  unfold loopBody, bind. rewrite emit_after.
  destruct (blockUser env target _) as [result w1]. reflexivity.
Qed.

Lemma loopBody_schedule (env : Env) (interval total : Z) (target : string)
    (st : LoopState) (w : World) :
  falsy (csrf_token env) = false ->
  exists events,
    snd (loopBody env interval total target st w) = after w events
    /\ schedule events = [Call target; Return; Wait interval]
    /\ overlay_texts events = [progressText (i st) total target].
Proof.
  intros Htok. rewrite loopBody_world.
  destruct (blockUser_schedule env target
              (after w [EOverlayText (progressText (i st) total target)]) Htok)
    as (events & -> & Hs & Ho).
  exists ([EOverlayText (progressText (i st) total target)] ++ events ++ [ESleep interval]).
  split; [unfold after; simpl; now rewrite <- !app_assoc|].
  rewrite !schedule_app, !overlay_texts_app, Hs, Ho. split; reflexivity.
Qed.

Lemma forLoop_schedule (env : Env) (interval total : Z) (ahead : list string) :
  falsy (csrf_token env) = false ->
  forall (st : LoopState) (w : World),
  exists events,
    snd (forLoop env interval total ahead st w) = after w events
    /\ schedule events = flat_map (round_steps interval) ahead
    /\ overlay_texts events = progress_from (i st) total ahead
    /\ i (fst (forLoop env interval total ahead st w)) = i st + Z.of_nat (length ahead)
    /\ successCount st <= successCount (fst (forLoop env interval total ahead st w))
       <= successCount st + Z.of_nat (length ahead).
Proof.
  intros Htok. induction ahead as [|target more IH]; intros st w.
  - exists []. simpl. rewrite after_nil. repeat split; lia.
  - cbn [forLoop]. unfold bind.
    pose proof (loopBody_state env interval total target st w) as Hst.
    destruct (loopBody_schedule env interval total target st w Htok)
      as (ev1 & Hw1 & Hs1 & Ho1).
    destruct (loopBody env interval total target st w) as [st1 w1].
    simpl in Hst, Hw1. subst st1 w1.
    destruct (IH {| i := i st + 1; successCount := round_count env total target st w |}
                 (after w ev1)) as (ev2 & Hw2 & Hs2 & Ho2 & Hi & Hc).
    exists (ev1 ++ ev2). rewrite Hw2, after_after.
    split; [reflexivity|].
    rewrite schedule_app, overlay_texts_app, Hs1, Hs2, Ho1, Ho2, Hi.
    cbn [i successCount length flat_map progress_from app round_steps] in *.
    split; [reflexivity|]. split; [reflexivity|].
    split; [lia|].
    assert (successCount st <= round_count env total target st w <= successCount st + 1).
    { unfold round_count. destruct (success _); lia. }
    lia.
Qed.


Lemma runBatch_events (env : Env) (interval : Z) (uidArray : list string) (w : World) :
  falsy (csrf_token env) = false ->
  exists events,
    snd (runBatch env interval uidArray w)
    = after w (EOverlayCreate :: events ++
               [EOverlayRemove;
                EAlert (summaryText
                          (successCount
                             (fst (forLoop env interval (Z.of_nat (length uidArray))
                                     uidArray {| i := 0; successCount := 0 |}
                                     (after w [EOverlayCreate]))))
                          (Z.of_nat (length uidArray)))])
    /\ snd (forLoop env interval (Z.of_nat (length uidArray)) uidArray
              {| i := 0; successCount := 0 |} (after w [EOverlayCreate]))
       = after (after w [EOverlayCreate]) events
    /\ schedule events = flat_map (round_steps interval) uidArray
    /\ overlay_texts events = progress_from 0 (Z.of_nat (length uidArray)) uidArray.
Proof.
  intros Htok. unfold runBatch, createStatusOverlay, bind. rewrite emit_after.
  destruct (forLoop_schedule env interval (Z.of_nat (length uidArray)) uidArray Htok
              {| i := 0; successCount := 0 |} (after w [EOverlayCreate]))
    as (events & Hw & Hs & Ho & _).
  destruct (forLoop _ _ _ _ _ _) as [st w1]. simpl in Hw. subst w1.
  exists events. simpl. split.
  - unfold emit, alert, emit, after. simpl. f_equal.
    rewrite <- !app_assoc. reflexivity.
  - repeat split; assumption.
Qed.

Lemma blockUser_success (env : Env) (target : string) (w : World) :
  falsy (csrf_token env) = false ->
  success (fst (blockUser env target w))
  = accepted_reply (endpoint env
                      (trace w ++ [EFetchStart (blockRequest (csrf_token env) target)])
                      (blockRequest (csrf_token env) target)).
Proof.
  intros Htok. unfold blockUser, bind, fetch, accepted_reply, reply_code. rewrite Htok.
  destruct (endpoint env _ _) as [|[st [data|]]]; simpl; try reflexivity.
  unfold interpretBody.
  destruct (getProp data "code") as [code|] eqn:Hc; simpl; try reflexivity.
  destruct (strict_eq_zero code); simpl; try reflexivity.
  destruct (getProp_code_message data code Hc) as [m ->].
  now destruct (toString_throws m).
Qed.


Lemma forLoop_cons (env : Env) (interval total : Z) (target : string)
    (more : list string) (st : LoopState) (w : World) :
  forLoop env interval total (target :: more) st w
  = forLoop env interval total more
      {| i := i st + 1; successCount := round_count env total target st w |}
      (snd (loopBody env interval total target st w)).
Proof.
  cbn [forLoop]. unfold bind.
  pose proof (loopBody_state env interval total target st w) as Hst.
  destruct (loopBody env interval total target st w) as [st1 w1].
  simpl in *. now subst.
Qed.




(** ** The success counter *)

Lemma skipn_nth_error {A : Type} (l : list A) : forall (n : nat) (x : A) (more : list A),
  skipn n l = x :: more ->
  nth_error l n = Some x /\ skipn (S n) l = more /\ (n < length l)%nat.
Proof.
  induction l as [|y l IH]; intros n x more H.
  - destruct n; discriminate.
  - destruct n as [|n]; simpl in *.
    + inversion H; subst. repeat split. lia.
    + destruct (IH n x more H) as (H1 & H2 & H3). repeat split; try assumption. lia.
Qed.

Lemma LoopReach_bounds (env : Env) (interval : Z) (uidArray : list string)
    (w0 : World) (st : LoopState) (w : World) :
  LoopReach env interval uidArray w0 st w ->
  0 <= successCount st <= i st /\ i st <= Z.of_nat (length uidArray).
Proof.
  induction 1 as [|st w target Hreach IH Hlt Hnth].
  - simpl. lia.
  - rewrite loopBody_state. cbn [i successCount].
    unfold round_count. destruct (success _); lia.
Qed.

Lemma forLoop_reach (env : Env) (interval : Z) (uidArray : list string) (w0 : World) :
  forall (ahead : list string) (st : LoopState) (w : World),
  LoopReach env interval uidArray w0 st w ->
  0 <= i st ->
  skipn (Z.to_nat (i st)) uidArray = ahead ->
  LoopReach env interval uidArray w0
    (fst (forLoop env interval (Z.of_nat (length uidArray)) ahead st w))
    (snd (forLoop env interval (Z.of_nat (length uidArray)) ahead st w)).
Proof.
  induction ahead as [|target more IH]; intros st w Hreach Hi Hskip.
  - exact Hreach.
  - destruct (skipn_nth_error uidArray _ _ _ Hskip) as (Hnth & Hmore & Hlt).
    rewrite forLoop_cons.
    pose proof (reach_round env interval uidArray w0 st w target Hreach) as Hnext.
    rewrite loopBody_state in Hnext.
    apply IH.
    + apply Hnext; [lia|exact Hnth].
    + cbn [i]. lia.
    + cbn [i]. replace (Z.to_nat (i st + 1)) with (S (Z.to_nat (i st))) by lia.
      exact Hmore.
Qed.

Lemma loopBody_after (env : Env) (interval total : Z) (target : string)
    (st : LoopState) (w : World) :
  exists events, snd (loopBody env interval total target st w) = after w events.
Proof.
  rewrite loopBody_world.
  destruct (blockUser_events env target
              (after w [EOverlayText (progressText (i st) total target)]))
    as (events & -> & _).
  eexists. rewrite !after_after. reflexivity.
Qed.

Lemma round_count_step (env : Env) (total : Z) (target : string)
    (st : LoopState) (w : World) :
  successCount st <= round_count env total target st w <= successCount st + 1.
Proof. unfold round_count. destruct (success _); lia. Qed.

Lemma forLoop_after (env : Env) (interval total : Z) (ahead : list string) :
  forall (st : LoopState) (w : World),
  exists events,
    snd (forLoop env interval total ahead st w) = after w events
    /\ i (fst (forLoop env interval total ahead st w)) = i st + Z.of_nat (length ahead)
    /\ successCount st <= successCount (fst (forLoop env interval total ahead st w))
       <= successCount st + Z.of_nat (length ahead).
Proof.
  induction ahead as [|target more IH]; intros st w.
  - exists []. simpl. rewrite after_nil. repeat split; lia.
  - rewrite forLoop_cons.
    destruct (loopBody_after env interval total target st w) as (ev1 & ->).
    destruct (IH {| i := i st + 1; successCount := round_count env total target st w |}
                 (after w ev1)) as (ev2 & -> & Hi & Hc).
    exists (ev1 ++ ev2). rewrite after_after. split; [reflexivity|].
    pose proof (round_count_step env total target st w).
    cbn [i successCount length] in *. split; lia.
Qed.

Lemma runBatch_summary (env : Env) (interval : Z) (uidArray : list string) (w : World) :
  exists events s,
    snd (runBatch env interval uidArray w)
    = after w (events ++ [EAlert (summaryText s (Z.of_nat (length uidArray)))])
    /\ 0 <= s <= Z.of_nat (length uidArray).
Proof.
  unfold runBatch, createStatusOverlay, bind. rewrite emit_after.
  destruct (forLoop_after env interval (Z.of_nat (length uidArray)) uidArray
              {| i := 0; successCount := 0 |} (after w [EOverlayCreate]))
    as (events & Hw & _ & Hc).
  destruct (forLoop _ _ _ _ _ _) as [st w1]. simpl in Hw, Hc. subst w1.
  exists ([EOverlayCreate] ++ events ++ [EOverlayRemove]), (successCount st).
  split; [|lia]. simpl. unfold alert, emit, after. simpl. f_equal.
  rewrite <- !app_assoc. reflexivity.
Qed.

Lemma last_new_event (w : World) (e d : Event) : last (trace (after w [e])) d = e.
Proof. unfold after. simpl. apply last_last. Qed.

Lemma summaryText_bounds (w : World) (events : list Event) (s0 total s t : Z) (d : Event) :
  0 <= s0 <= total ->
  last (trace (after w (events ++ [EAlert (summaryText s0 total)]))) d
  = EAlert (summaryText s t) ->
  0 <= s <= t.
Proof.
  intros Hb H. rewrite last_after in H. inversion H. lia.
Qed.

Lemma Main_summary_bounds (env : Env) (w : World) (d : Event) (s t : Z) :
  last (trace (snd (Main.startBatchBlock env w))) d = EAlert (summaryText s t) ->
  0 <= s <= t.
Proof.
  unfold Main.startBatchBlock.
  destruct (falsy (csrf_token env)).
  - unfold alert. rewrite emit_after. simpl snd. rewrite last_new_event. discriminate.
  - unfold bind. destruct (Main.getRecommendationUids w) as [uids w1].
    destruct (Z.of_nat (length uids) =? 0).
    + unfold alert. rewrite emit_after. simpl snd. rewrite last_new_event. discriminate.
    + unfold confirm. destruct (user_confirms env (trace w1) _); cbn [negb].
      * destruct (runBatch_summary env (Main.blockInterval Main.CONFIG) uids
                    (mkWorld (document w1)
                       (trace w1 ++ [EConfirm (Main.confirmText (Z.of_nat (length uids))) true])))
          as (events & s0 & -> & Hb).
        now apply summaryText_bounds.
      * simpl snd. cbn [trace]. rewrite last_last. discriminate.
Qed.

Lemma Expand_summary_bounds (env : Env) (w : World) (d : Event) (s t : Z) :
  last (trace (snd (Expand.startBatchBlock env w))) d = EAlert (summaryText s t) ->
  0 <= s <= t.
Proof.
  unfold Expand.startBatchBlock.
  destruct (falsy (csrf_token env)).
  - unfold alert. rewrite emit_after. simpl snd. rewrite last_new_event. discriminate.
  - unfold bind. destruct (Expand.expandListIfNeeded env w) as [u w0].
    destruct (Expand.getRecommendationUids w0) as [uids w1].
    destruct (Z.of_nat (length uids) =? 0).
    + unfold alert. rewrite emit_after. simpl snd. rewrite last_new_event. discriminate.
    + unfold confirm. destruct (user_confirms env (trace w1) _); cbn [negb].
      * destruct (runBatch_summary env (Expand.blockInterval Expand.CONFIG) uids
                    (mkWorld (document w1)
                       (trace w1 ++ [EConfirm (Expand.confirmText (Z.of_nat (length uids))) true])))
          as (events & s0 & -> & Hb).
        now apply summaryText_bounds.
      * simpl snd. cbn [trace]. rewrite last_last. discriminate.
Qed.

(** C10. In every state that the batch loop goes through the counter
    satisfies 0 <= successCount <= i <= number of identifiers, i being
    the number of identifiers handled so far.  It starts at 0; a round
    adds one to i and leaves the counter as it is or adds one to it, the
    latter exactly when the result of the round is a success.  The state
    in which the loop ends is such a state, with every identifier
    handled, and the summary that either variant shows at the end never
    reports more successes than there are identifiers. *)
Theorem successCount_invariant (env : Env) (interval : Z) (uidArray : list string)
    (w0 : World) (st : LoopState) (w : World) :
  LoopReach env interval uidArray w0 st w ->
  let total := Z.of_nat (length uidArray) in
  let start := {| i := 0; successCount := 0 |} in
  (0 <= successCount st <= i st /\ i st <= total)
  /\ (forall target,
        let next := fst (loopBody env interval total target st w) in
        let result := fst (blockUser env target
                             (after w [EOverlayText (progressText (i st) total target)])) in
        i next = i st + 1
        /\ (success result = true -> successCount next = successCount st + 1)
        /\ (success result = false -> successCount next = successCount st))
  /\ LoopReach env interval uidArray w0
       (fst (forLoop env interval total uidArray start w0))
       (snd (forLoop env interval total uidArray start w0))
  /\ i (fst (forLoop env interval total uidArray start w0)) = total
  /\ (exists events s,
        snd (runBatch env interval uidArray w0)
        = after w0 (events ++ [EAlert (summaryText s total)])
        /\ 0 <= s <= total)
  /\ (forall w1 d s t,
        last (trace (snd (Main.startBatchBlock env w1))) d = EAlert (summaryText s t) ->
        0 <= s <= t)
  /\ (forall w1 d s t,
        last (trace (snd (Expand.startBatchBlock env w1))) d = EAlert (summaryText s t) ->
        0 <= s <= t).
Proof.
  intros Hreach total start.
  split; [exact (LoopReach_bounds env interval uidArray w0 st w Hreach)|].
  split.
  { intros target next result. unfold next. rewrite loopBody_state.
    cbn [i successCount]. unfold round_count. fold result.
    split; [reflexivity|]. split; intros ->; reflexivity. }
  split.
  { apply forLoop_reach; [constructor|simpl; lia|reflexivity]. }
  split.
  { destruct (forLoop_after env interval total uidArray start w0) as (ev & _ & Hi & _).
    rewrite Hi. simpl. lia. }
  split; [apply runBatch_summary|].
  split; intros w1 d s t.
  - apply Main_summary_bounds.
  - apply Expand_summary_bounds.
Qed.

Lemma successCount_invariant_witness :
  let st := fst (loopBody (fixture_env (Some "tok"%string)) 300 3 "22"
                   {| i := 0; successCount := 0 |}
                   (mkWorld (fixture_document None) [])) in
  successCount st = 1
  /\ (0 <= successCount st <= i st /\ i st <= 3).
Proof.
  pose (env := fixture_env (Some "tok"%string)).
  pose (w0 := mkWorld (fixture_document None) []).
  pose (uids := ["22"; "11"; "33"]%string).
  split; [reflexivity|].
  exact (proj1 (successCount_invariant env 300 uids w0 _ _
                  (reach_round env 300 uids w0 _ w0 "22"
                     (reach_start env 300 uids w0) eq_refl eq_refl))).
Defined.

(** ** The orchestrator before the batch *)

Lemma Main_getRecommendationUids_first (w : World) :
  exists more,
    trace (snd (Main.getRecommendationUids w))
    = trace w ++ EQuerySelector ".recommend-list-v1" :: more.
Proof.
  unfold Main.getRecommendationUids, bind, document_querySelector.
  destruct (querySelector (document w) _) as [container|]; simpl.
  - eexists. rewrite <- !app_assoc. reflexivity.
  - eexists. rewrite <- !app_assoc. reflexivity.
Qed.

Lemma Expand_getRecommendationUids_first (w : World) :
  exists more,
    trace (snd (Expand.getRecommendationUids w))
    = trace w ++ EQuerySelector ".recommend-list-v1" :: more.
Proof.
  unfold Expand.getRecommendationUids, bind, document_querySelector.
  destruct (querySelector (document w) _) as [container|]; simpl.
  - eexists. rewrite <- !app_assoc. reflexivity.
  - exists []. reflexivity.
Qed.

Lemma runBatch_after (env : Env) (interval : Z) (uidArray : list string) (w : World) :
  exists events, trace (snd (runBatch env interval uidArray w)) = trace w ++ events.
Proof.
  destruct (runBatch_summary env interval uidArray w) as (events & s & -> & _).
  eexists. reflexivity.
Qed.

Lemma Expand_after_expansion (env : Env) (w : World) :
  falsy (csrf_token env) = false ->
  exists more,
    trace (snd (Expand.startBatchBlock env w))
    = trace (snd (Expand.expandListIfNeeded env w))
        ++ EQuerySelector ".recommend-list-v1" :: more.
Proof.
  intros Htok. unfold Expand.startBatchBlock. rewrite Htok. unfold bind.
  destruct (Expand.expandListIfNeeded env w) as [u w0]. cbn [snd].
  destruct (Expand_getRecommendationUids_first w0) as (more & Hm).
  destruct (Expand.getRecommendationUids w0) as [uids w1]. cbn [snd] in Hm.
  destruct (Z.of_nat (length uids) =? 0).
  - unfold alert. rewrite emit_after. cbn [snd after trace]. rewrite Hm.
    eexists. rewrite <- app_assoc. reflexivity.
  - unfold confirm. destruct (user_confirms env (trace w1) _); cbn [negb].
    + destruct (runBatch_after env (Expand.blockInterval Expand.CONFIG) uids
                  (mkWorld (document w1)
                     (trace w1 ++ [EConfirm (Expand.confirmText (Z.of_nat (length uids))) true])))
        as (events & ->).
      cbn [trace]. rewrite Hm. eexists. rewrite <- !app_assoc. reflexivity.
    + cbn [snd trace]. rewrite Hm. eexists. rewrite <- !app_assoc. reflexivity.
Qed.

Lemma expandListIfNeeded_visible (env : Env) (w : World) :
  Expand.present_and_visible
    (querySelector (document w) ".recommend-list-v1 .rec-footer") = true ->
  Expand.expandListIfNeeded env w
  = (tt, mkWorld (click_effect env (document w))
           (trace w ++ [EQuerySelector ".recommend-list-v1 .rec-footer";
                        EConsole LogLevel Expand.expandFoundText;
                        EClick; ESleep 1500])).
Proof.
  intros Hv.
  unfold Expand.expandListIfNeeded, bind, document_querySelector,
    console_log, click, sleep, emit.
  cbn [Expand.expandBtnSelector Expand.CONFIG].
  rewrite Hv. simpl. rewrite <- !app_assoc. reflexivity.
Qed.

Lemma expandListIfNeeded_hidden (env : Env) (w : World) :
  Expand.present_and_visible
    (querySelector (document w) ".recommend-list-v1 .rec-footer") = false ->
  Expand.expandListIfNeeded env w
  = (tt, after w [EQuerySelector ".recommend-list-v1 .rec-footer";
                  EConsole LogLevel Expand.expandSkippedText]).
Proof.
  intros Hv.
  unfold Expand.expandListIfNeeded, bind, document_querySelector,
    console_log, emit.
  cbn [Expand.expandBtnSelector Expand.CONFIG].
  rewrite Hv. simpl. unfold after. rewrite <- !app_assoc. reflexivity.
Qed.

(** The expansion step belongs to the preparation: it neither asks for
    the confirmation nor touches the overlay or the network. *)
Lemma expandListIfNeeded_events (env : Env) (w : World) :
  exists events,
    trace (snd (Expand.expandListIfNeeded env w)) = trace w ++ events
    /\ existsb is_confirmation events = false
    /\ existsb is_running events = false.
Proof.
  destruct (Expand.present_and_visible
              (querySelector (document w) ".recommend-list-v1 .rec-footer")) eqn:Hv.
  - rewrite (expandListIfNeeded_visible env w Hv). eexists. simpl.
    split; [reflexivity|]. split; reflexivity.
  - rewrite (expandListIfNeeded_hidden env w Hv). eexists. simpl.
    split; [reflexivity|]. split; reflexivity.
Qed.

(** C8. The expansion step of the variant that has one looks the
    expand control up once.  When the control is there and visible (its
    offsetParent is not null) the step clicks it and then waits the fixed
    1500 ms; when it is absent or hidden the step only logs: no click, no
    wait.  In both cases the orchestrator goes on with the extraction:
    the next event after the step is the extractor's query for the
    container. *)
Theorem expandListIfNeeded_only_when_visible (env : Env) (w : World) :
  let expandBtn := querySelector (document w) ".recommend-list-v1 .rec-footer" in
  (Expand.present_and_visible expandBtn = true
   <-> exists btn parent, expandBtn = Some btn /\ offsetParent btn = Some parent)
  /\ (Expand.present_and_visible expandBtn = true ->
      Expand.expandListIfNeeded env w
      = (tt, mkWorld (click_effect env (document w))
               (trace w ++ [EQuerySelector ".recommend-list-v1 .rec-footer";
                            EConsole LogLevel Expand.expandFoundText;
                            EClick; ESleep 1500])))
  /\ (Expand.present_and_visible expandBtn = false ->
      Expand.expandListIfNeeded env w
      = (tt, after w [EQuerySelector ".recommend-list-v1 .rec-footer";
                      EConsole LogLevel Expand.expandSkippedText])
      /\ existsb is_click_or_wait
           [EQuerySelector ".recommend-list-v1 .rec-footer";
            EConsole LogLevel Expand.expandSkippedText] = false)
  /\ (falsy (csrf_token env) = false ->
      exists more,
        trace (snd (Expand.startBatchBlock env w))
        = trace (snd (Expand.expandListIfNeeded env w))
            ++ EQuerySelector ".recommend-list-v1" :: more).
Proof.
  intros expandBtn.
  split; [|split; [|split]].
  - unfold Expand.present_and_visible. split.
    + destruct expandBtn as [btn|]; [|discriminate].
      destruct (offsetParent btn) as [parent|] eqn:Hp; [|discriminate].
      intros _. now exists btn, parent.
    + intros (btn & parent & -> & ->). reflexivity.
  - apply expandListIfNeeded_visible.
  - intros Hv. split; [|reflexivity]. now apply expandListIfNeeded_hidden.
  - apply Expand_after_expansion.
Qed.

Lemma expandListIfNeeded_only_when_visible_witness :
  trace (snd (Expand.expandListIfNeeded (fixture_env (Some "tok"%string))
                (mkWorld (fixture_document (Some visible_footer)) [])))
  = [EQuerySelector ".recommend-list-v1 .rec-footer";
     EConsole LogLevel Expand.expandFoundText; EClick; ESleep 1500]
  /\ trace (snd (Expand.expandListIfNeeded (fixture_env (Some "tok"%string))
                   (mkWorld (fixture_document (Some hidden_footer)) [])))
     = [EQuerySelector ".recommend-list-v1 .rec-footer";
        EConsole LogLevel Expand.expandSkippedText]
  /\ trace (snd (Expand.expandListIfNeeded (fixture_env (Some "tok"%string))
                   (mkWorld (fixture_document None) [])))
     = [EQuerySelector ".recommend-list-v1 .rec-footer";
        EConsole LogLevel Expand.expandSkippedText].
Proof.
  destruct (expandListIfNeeded_only_when_visible (fixture_env (Some "tok"%string))
              (mkWorld (fixture_document (Some visible_footer)) [])) as (_ & H1 & _).
  destruct (expandListIfNeeded_only_when_visible (fixture_env (Some "tok"%string))
              (mkWorld (fixture_document (Some hidden_footer)) [])) as (_ & _ & H2 & _).
  destruct (expandListIfNeeded_only_when_visible (fixture_env (Some "tok"%string))
              (mkWorld (fixture_document None) [])) as (_ & _ & H3 & _).
  rewrite (H1 eq_refl), (proj1 (H2 eq_refl)), (proj1 (H3 eq_refl)).
  repeat split.
Defined.

(** C6, the claim as worded: when the container is absent the extractor
    raises a user-visible error.  The extractor of the variant with the
    expansion step returns the empty list without a word: its only event
    is the query for the container. *)
Lemma Expand_getRecommendationUids_silent :
  ~ (forall w, querySelector (document w) ".recommend-list-v1" = None ->
               exists msg, In (EAlert msg) (trace (snd (Expand.getRecommendationUids w)))).
Proof.
  intros H. destruct (H (mkWorld bare_document []) eq_refl) as [msg Hin].
  simpl in Hin. destruct Hin as [Hin|[]]. discriminate Hin.
Qed.

(** C6, amended. When the container is absent the extractor of either
    variant returns the empty list; the one of main.js first alerts that
    the container was not found, the one of the variant with the
    expansion step says nothing.  The orchestrator of either variant then
    alerts that no creators were found and returns: no confirmation is
    asked, no overlay is created, no request is sent. *)
Theorem container_absent_back_to_idle (env : Env) (w : World) :
  falsy (csrf_token env) = false ->
  querySelector (document w) ".recommend-list-v1" = None ->
  querySelector (document (snd (Expand.expandListIfNeeded env w))) ".recommend-list-v1" = None ->
  Main.getRecommendationUids w
  = ([], after w [EQuerySelector ".recommend-list-v1";
                  EAlert Main.containerNotFoundText])
  /\ Expand.getRecommendationUids w
     = ([], after w [EQuerySelector ".recommend-list-v1"])
  /\ Main.startBatchBlock env w
     = (tt, after w [EQuerySelector ".recommend-list-v1";
                     EAlert Main.containerNotFoundText;
                     EAlert Main.noCreatorsText])
  /\ Expand.startBatchBlock env w
     = (tt, after (snd (Expand.expandListIfNeeded env w))
              [EQuerySelector ".recommend-list-v1";
               EAlert Expand.noCreatorsText])
  /\ (exists events,
        trace (snd (Expand.startBatchBlock env w)) = trace w ++ events
        /\ existsb is_confirmation events = false
        /\ existsb is_running events = false)
  /\ (exists events,
        trace (snd (Main.startBatchBlock env w)) = trace w ++ events
        /\ existsb is_confirmation events = false
        /\ existsb is_running events = false).
Proof.
  intros Htok Hc Hc'.
  assert (Main.getRecommendationUids w
          = ([], after w [EQuerySelector ".recommend-list-v1";
                          EAlert Main.containerNotFoundText])) as HM.
  { unfold Main.getRecommendationUids, bind, document_querySelector, alert, emit.
    cbn [Main.containerSelector Main.CONFIG]. rewrite Hc. simpl. unfold after.
    rewrite <- !app_assoc. reflexivity. }
  assert (forall w', querySelector (document w') ".recommend-list-v1" = None ->
                     Expand.getRecommendationUids w'
                     = ([], after w' [EQuerySelector ".recommend-list-v1"])) as HE.
  { intros w' Hw'. unfold Expand.getRecommendationUids, bind, document_querySelector.
    cbn [Expand.containerSelector Expand.CONFIG]. rewrite Hw'. reflexivity. }
  assert (Main.startBatchBlock env w
          = (tt, after w [EQuerySelector ".recommend-list-v1";
                          EAlert Main.containerNotFoundText;
                          EAlert Main.noCreatorsText])) as HMs.
  { unfold Main.startBatchBlock. rewrite Htok. unfold bind. rewrite HM. simpl.
    unfold alert, emit, after. simpl. rewrite <- !app_assoc. reflexivity. }
  assert (Expand.startBatchBlock env w
          = (tt, after (snd (Expand.expandListIfNeeded env w))
                   [EQuerySelector ".recommend-list-v1";
                    EAlert Expand.noCreatorsText])) as HEs.
  { unfold Expand.startBatchBlock. rewrite Htok. unfold bind.
    destruct (Expand.expandListIfNeeded env w) as [u w0]. cbn [snd] in *.
    rewrite (HE w0 Hc'). simpl.
    unfold alert, emit, after. simpl. rewrite <- !app_assoc. reflexivity. }
  split; [exact HM|]. split; [exact (HE w Hc)|].
  split; [exact HMs|]. split; [exact HEs|]. split.
  - rewrite HEs. cbn [snd after trace].
    destruct (expandListIfNeeded_events env w) as (events & -> & Hconf & Hrun).
    exists (events ++ [EQuerySelector ".recommend-list-v1"; EAlert Expand.noCreatorsText]).
    rewrite <- app_assoc. split; [reflexivity|].
    rewrite !existsb_app, Hconf, Hrun. split; reflexivity.
  - rewrite HMs. eexists. cbn [snd after trace].
    split; [reflexivity|]. split; reflexivity.
Qed.

Lemma container_absent_back_to_idle_witness :
  trace (snd (Main.startBatchBlock (fixture_env (Some "tok"%string))
                (mkWorld bare_document [])))
  = [EQuerySelector ".recommend-list-v1";
     EAlert Main.containerNotFoundText; EAlert Main.noCreatorsText]
  /\ trace (snd (Expand.startBatchBlock (fixture_env (Some "tok"%string))
                   (mkWorld bare_document [])))
     = [EQuerySelector ".recommend-list-v1 .rec-footer";
        EConsole LogLevel Expand.expandSkippedText;
        EQuerySelector ".recommend-list-v1";
        EAlert Expand.noCreatorsText].
Proof.
  destruct (container_absent_back_to_idle (fixture_env (Some "tok"%string))
              (mkWorld bare_document []) eq_refl eq_refl eq_refl)
    as (_ & _ & H1 & H2 & _).
  rewrite H1, H2. split; reflexivity.
Defined.

(** * Further properties of the script *)

(** ** The two searches, from a clean prefix *)

Lemma string_app_assoc (a b c : string) :
  ((a ++ b) ++ c)%string = (a ++ b ++ c)%string.
Proof. induction a as [|x a IH]; simpl; [reflexivity|now rewrite IH]. Qed.

Lemma string_app_length (a b : string) :
  String.length (a ++ b)%string = (String.length a + String.length b)%nat.
Proof. induction a as [|x a IH]; simpl; [reflexivity|now rewrite IH]. Qed.

(** Two splits of one string: the longer left part extends the shorter. *)
Lemma string_app_split (b : string) : forall a x y : string,
  (a ++ x)%string = (b ++ y)%string ->
  (String.length b < String.length a)%nat ->
  exists c t, a = (b ++ String c t)%string /\ y = (String c t ++ x)%string.
Proof.
  induction b as [|k b IH]; intros a x y H Hlen.
  - destruct a as [|c t]; simpl in Hlen; [lia|].
    exists c, t. simpl in *. split; [reflexivity|now rewrite <- H].
  - destruct a as [|c a]; simpl in Hlen; [lia|].
    simpl in H. inversion H; subst k.
    destruct (IH a x y H2) as (c' & t & Ha & Hy); [lia|].
    exists c', t. split; [simpl; now rewrite Ha|assumption].
Qed.

Lemma regex_match_clean_prefix (lit : string) (cls : ascii -> bool)
    (pre g r : string) :
  (forall p, ~ occurs_after lit cls p (pre ++ lit)%string) ->
  g <> EmptyString -> all_chars cls g = true -> head_in cls r = false ->
  regex_match lit cls (pre ++ lit ++ g ++ r)%string = Some g.
Proof.
  intros Hclean Hne Hall Hr. apply regex_match_leftmost; try assumption.
  intros p1 p2 Hpre Hp2 (c & tail & Hc & Hs). simpl in Hs.
  rewrite <- string_app_assoc in Hs.
  destruct (string_app_split lit (p2 ++ lit)%string (g ++ r)%string (String c tail) Hs)
    as (c' & t & Ha & Hy).
  { rewrite string_app_length. destruct p2; [contradiction|simpl; lia]. }
  simpl in Hy. inversion Hy; subst c'.
  apply (Hclean p1). exists c, t. split; [assumption|].
  rewrite Hpre, string_app_assoc. now rewrite Ha.
Qed.

Lemma getCsrfToken_regex (cookie : string) :
  getCsrfToken cookie = regex_match cookie_marker not_semicolon cookie.
Proof. unfold getCsrfToken. now destruct (regex_match _ _ cookie). Qed.

Lemma head_in_not_semicolon (rest : string) :
  head_in not_semicolon rest = false <->
  rest = EmptyString \/ exists more, rest = String ";"%char more.
Proof.
  destruct rest as [|c rest]; simpl.
  - split; [now left|reflexivity].
  - unfold not_semicolon. rewrite negb_false_iff. split.
    + intros H. apply Ascii.eqb_eq in H. subst. right. now exists rest.
    + intros [H|[more H]]; [discriminate|]. inversion H. apply Ascii.eqb_refl.
Qed.

(** X1. The credential that the script reads from the cookie string is
    null exactly when bili_jct= is nowhere followed by a character
    other than a semicolon.  Otherwise it is a non-empty string without
    a semicolon: the whole value that follows the leftmost such place, up
    to the next semicolon or the end of the string.  Hence the login
    guards of the script trip exactly when the credential is null, and
    main.js warns on load exactly then. *)
Theorem getCsrfToken_leftmost_value (cookie : string) :
  match getCsrfToken cookie with
  | None => forall pre, ~ occurs_after cookie_marker not_semicolon pre cookie
  | Some token =>
      token <> EmptyString /\ all_chars not_semicolon token = true /\
      exists pre rest,
        cookie = (pre ++ cookie_marker ++ token ++ rest)%string /\
        (rest = EmptyString \/ exists more, rest = String ";"%char more) /\
        forall p, occurs_after cookie_marker not_semicolon p cookie ->
                  (String.length pre <= String.length p)%nat
  end
  /\ (falsy (getCsrfToken cookie) = true <-> getCsrfToken cookie = None)
  /\ fst (loadScript cookie) = getCsrfToken cookie
  /\ (snd (loadScript cookie) = [EConsole WarnLevel notLoggedInWarning]
      <-> getCsrfToken cookie = None)
  /\ (snd (loadScript cookie) = [] <-> getCsrfToken cookie <> None).
Proof.
  assert (forall token, getCsrfToken cookie = Some token -> token <> EmptyString) as Hne.
  { intros token E. rewrite getCsrfToken_regex in E.
    now apply regex_match_shape in E. }
  split; [|split; [|split; [|split]]].
  - destruct (getCsrfToken cookie) as [token|] eqn:E.
    + rewrite getCsrfToken_regex in E.
      destruct (regex_match_shape _ _ _ _ E) as [H1 H2].
      destruct (regex_match_some _ _ _ _ E) as (pre & rest & Hs & Hr & Hleft).
      split; [assumption|]. split; [assumption|].
      exists pre, rest. split; [assumption|].
      split; [now apply head_in_not_semicolon|assumption].
    + rewrite getCsrfToken_regex in E. now apply regex_match_none.
  - destruct (getCsrfToken cookie) as [[|c token]|] eqn:E; simpl.
    + now contradiction (Hne _ eq_refl).
    + split; discriminate.
    + split; reflexivity.
  - unfold loadScript. now destruct (falsy (getCsrfToken cookie)).
  - unfold loadScript.
    destruct (getCsrfToken cookie) as [[|c token]|] eqn:E; simpl.
    + now contradiction (Hne _ eq_refl).
    + split; discriminate.
    + split; reflexivity.
  - unfold loadScript.
    destruct (getCsrfToken cookie) as [[|c token]|] eqn:E; simpl.
    + now contradiction (Hne _ eq_refl).
    + split; [discriminate|reflexivity].
    + split; [discriminate|]. intros H. now contradiction H.
Qed.

(** X2. Round trip of the cookie reader: when a cookie string holds
    bili_jct=TOKEN, TOKEN being non-empty, free of semicolons and
    followed by a semicolon or by nothing, and bili_jct= followed by a
    value does not occur before it, the script's credential is TOKEN. *)
Theorem getCsrfToken_round_trip (pre token rest : string) :
  (forall p, ~ occurs_after cookie_marker not_semicolon p (pre ++ cookie_marker)%string) ->
  token <> EmptyString ->
  all_chars not_semicolon token = true ->
  (rest = EmptyString \/ exists more, rest = String ";"%char more) ->
  getCsrfToken (pre ++ "bili_jct=" ++ token ++ rest)%string = Some token
  /\ falsy (getCsrfToken (pre ++ "bili_jct=" ++ token ++ rest)%string) = false.
Proof.
  intros Hclean Hne Hall Hrest.
  assert (getCsrfToken (pre ++ "bili_jct=" ++ token ++ rest)%string = Some token) as E.
  { rewrite getCsrfToken_regex.
    apply (regex_match_clean_prefix cookie_marker not_semicolon pre token rest);
      try assumption.
    now apply head_in_not_semicolon. }
  split; [exact E|]. rewrite E. destruct token; [contradiction|reflexivity].
Qed.

Lemma getCsrfToken_round_trip_witness :
  getCsrfToken "buvid3=0F1E-2D3C; sid=abc; bili_jct=9f8e7d6c5b4a; DedeUserID=1"
  = Some "9f8e7d6c5b4a"%string.
Proof.
  refine (proj1 (getCsrfToken_round_trip "buvid3=0F1E-2D3C; sid=abc; " "9f8e7d6c5b4a"
                   "; DedeUserID=1" _ _ _ _)).
  - apply regex_match_none. reflexivity.
  - discriminate.
  - reflexivity.
  - right. now exists " DedeUserID=1"%string.
Defined.

(** X3. The URL parser accepts the space URL behind any prefix:
    protocol-relative, with a scheme, inside a longer string.  When the
    host marker followed by a digit does not occur before, the text
    prefix, marker, digits, rest parses to the digits, the rest being
    empty or starting with something that is no digit. *)
Theorem parseUidFromUrl_any_prefix (pre ds rest : string) :
  (forall p, ~ occurs_after space_marker is_digit p (pre ++ space_marker)%string) ->
  ds <> EmptyString ->
  all_chars is_digit ds = true ->
  head_in is_digit rest = false ->
  parseUidFromUrl (pre ++ "space.bilibili.com/" ++ ds ++ rest)%string = Some ds.
Proof.
  intros Hclean Hne Hall Hrest. rewrite parseUidFromUrl_regex.
  now apply (regex_match_clean_prefix space_marker is_digit pre ds rest).
Qed.

Lemma parseUidFromUrl_any_prefix_witness :
  parseUidFromUrl "//space.bilibili.com/123456/" = Some "123456"%string
  /\ parseUidFromUrl "http://space.bilibili.com/7?spm=space.bilibili.com/8" = Some "7"%string.
Proof.
  split.
  - refine (parseUidFromUrl_any_prefix "//" "123456" "/" _ _ _ _);
      [apply regex_match_none; reflexivity|discriminate|reflexivity|reflexivity].
  - refine (parseUidFromUrl_any_prefix "http://" "7" "?spm=space.bilibili.com/8" _ _ _ _);
      [apply regex_match_none; reflexivity|discriminate|reflexivity|reflexivity].
Defined.

Lemma getCsrfToken_leftmost_value_witness :
  getCsrfToken "sid=abc; my_bili_jct=first; bili_jct=second" = Some "first"%string
  /\ snd (loadScript "sid=abc; bili_jct=") = [EConsole WarnLevel notLoggedInWarning].
Proof.
  split; [reflexivity|].
  destruct (getCsrfToken_leftmost_value "sid=abc; bili_jct=") as (_ & _ & _ & H & _).
  apply H. reflexivity.
Defined.

(** ** More on the block request *)

Lemma strict_eq_zero_spec (v : JSValue) : strict_eq_zero v = true <-> v = JNum 0.
Proof.
  split; [|intros ->; reflexivity].
  destruct v as [| |b|n|s|l|l]; try discriminate.
  destruct n; try discriminate. reflexivity.
Qed.

Lemma getProp_defined (data : JSValue) (k : string) (v : JSValue) :
  getProp data k = Some v -> v <> JUndefined ->
  exists props, data = JObj props /\ assoc k props = Some v.
Proof.
  destruct data as [| |b|n|s|l|props]; simpl; intros H Hv;
    try discriminate; try (inversion H; subst; now contradiction Hv).
  exists props. split; [reflexivity|].
  destruct (assoc k props) as [x|]; inversion H; subst; [reflexivity|now contradiction Hv].
Qed.

(** X4. The block operation reports a success in one case only: there
    is a credential, the request was answered, the body parses to an
    object, and the code of that object is the number 0.  A code 0 given
    as a string, a missing code, a body that is no object and every
    failure of the transport are no success, whatever the HTTP status. *)
Theorem blockUser_success_iff (env : Env) (w : World) (target : string) :
  success (fst (blockUser env target w)) = true
  <-> falsy (csrf_token env) = false
      /\ exists st props,
           endpoint env (trace w ++ [EFetchStart (blockRequest (csrf_token env) target)])
                    (blockRequest (csrf_token env) target)
           = FetchResolved (mkResponse st (Some (JObj props)))
           /\ assoc "code" props = Some (JNum 0).
Proof.
  split.
  - intros H. destruct (falsy (csrf_token env)) eqn:Htok.
    + unfold blockUser in H. rewrite Htok in H. discriminate H.
    + split; [reflexivity|].
      rewrite (blockUser_success env target w Htok) in H.
      unfold accepted_reply, reply_code in H.
      destruct (endpoint env _ _) as [|[st [data|]]]; try discriminate.
      simpl in H. destruct (getProp data "code") as [code|] eqn:Hc; [|discriminate].
      apply strict_eq_zero_spec in H. subst code.
      destruct (getProp_defined data "code" (JNum 0) Hc) as (props & -> & Ha);
        [discriminate|].
      now exists st, props.
  - intros (Htok & st & props & Hout & Ha).
    rewrite (blockUser_success env target w Htok), Hout.
    unfold accepted_reply, reply_code. simpl. now rewrite Ha.
Qed.

Lemma blockUser_success_iff_witness :
  success (fst (blockUser (fixture_env (Some "tok"%string)) "22"
                  (mkWorld bare_document []))) = true
  /\ success (fst (blockUser banned_env "22" (mkWorld bare_document []))) = false.
Proof.
  split.
  - apply (proj2 (blockUser_success_iff (fixture_env (Some "tok"%string))
                    (mkWorld bare_document []) "22")).
    split; [reflexivity|].
    exists 200, [("code"%string, JNum 0)]. split; reflexivity.
  - reflexivity.
Defined.

(** X5. A body that parses but is no object with a code.  The body
    null is a network error (reading its code throws); a number, a
    string, a boolean or an array is a rejection whose message is
    undefined; an object without code is a rejection with the object's
    message, undefined when it has none, unless that message does not
    convert to a string for the warning, which makes it a network error
    as well. *)
Theorem blockUser_odd_bodies (env : Env) (w : World) (target : string)
    (st : Z) (data : JSValue) :
  falsy (csrf_token env) = false ->
  endpoint env (trace w ++ [EFetchStart (blockRequest (csrf_token env) target)])
           (blockRequest (csrf_token env) target)
  = FetchResolved (mkResponse st (Some data)) ->
  let result := fst (blockUser env target w) in
  let network_error :=
    {| success := false; uid := Some target; msg := Some (JStr "Network Error") |} in
  (data = JNull -> result = network_error)
  /\ ((exists b, data = JBool b) \/ (exists n, data = JNum n) \/
      (exists s, data = JStr s) \/ (exists l, data = JArr l) ->
      result = {| success := false; uid := Some target; msg := Some JUndefined |})
  /\ (forall props, data = JObj props -> assoc "code" props = None ->
        assoc "message" props = None ->
        result = {| success := false; uid := Some target; msg := Some JUndefined |})
  /\ (forall props message, data = JObj props -> assoc "code" props = None ->
        assoc "message" props = Some message ->
        toString_throws message = false ->
        result = {| success := false; uid := Some target; msg := Some message |})
  /\ (forall props message, data = JObj props -> assoc "code" props = None ->
        assoc "message" props = Some message ->
        toString_throws message = true ->
        result = network_error).
Proof.
  intros Htok Hout result network_error. unfold result, blockUser, bind, fetch.
  rewrite Htok, Hout. simpl. unfold interpretBody.
  split; [|split; [|split; [|split]]].
  - intros ->. reflexivity.
  - intros [[b ->]|[[n ->]|[[s ->]|[l ->]]]]; reflexivity.
  - intros props -> Ha Hm. simpl. now rewrite Ha, Hm.
  - intros props message -> Ha Hm Hs. simpl. rewrite Ha, Hm. simpl. now rewrite Hs.
  - intros props message -> Ha Hm Hs. simpl. rewrite Ha, Hm. simpl. now rewrite Hs.
Qed.

Lemma blockUser_odd_bodies_witness :
  fst (blockUser (mkEnv (Some "tok"%string)
                    (fun _ _ => FetchResolved (mkResponse 200 (Some (JArr []))))
                    (fun _ _ => true) (fun d => d))
         "22" (mkWorld bare_document []))
  = {| success := false; uid := Some "22"%string; msg := Some JUndefined |}
  /\ fst (blockUser (mkEnv (Some "tok"%string)
                       (fun _ _ => FetchResolved (mkResponse 200
                          (Some (JObj [("message"%string,
                                        JArr [JNull; JObj [("toString"%string, JNum 1)]])]))))
                       (fun _ _ => true) (fun d => d))
            "22" (mkWorld bare_document []))
     = {| success := false; uid := Some "22"%string; msg := Some (JStr "Network Error") |}.
Proof.
  split.
  - refine (proj1 (proj2 (blockUser_odd_bodies
              (mkEnv (Some "tok"%string)
                 (fun _ _ => FetchResolved (mkResponse 200 (Some (JArr []))))
                 (fun _ _ => true) (fun d => d))
              (mkWorld bare_document []) "22" 200 (JArr []) eq_refl eq_refl)) _).
    right. right. right. now exists [].
  - refine (proj2 (proj2 (proj2 (proj2 (blockUser_odd_bodies
              (mkEnv (Some "tok"%string)
                 (fun _ _ => FetchResolved (mkResponse 200
                    (Some (JObj [("message"%string,
                                  JArr [JNull; JObj [("toString"%string, JNum 1)]])]))))
                 (fun _ _ => true) (fun d => d))
              (mkWorld bare_document []) "22" 200
              (JObj [("message"%string,
                      JArr [JNull; JObj [("toString"%string, JNum 1)]])])
              eq_refl eq_refl))))
              [("message"%string, JArr [JNull; JObj [("toString"%string, JNum 1)]])]
              (JArr [JNull; JObj [("toString"%string, JNum 1)]])
              eq_refl eq_refl eq_refl eq_refl).
Defined.

(** X6. With a credential, one call of the block operation is one
    request: the POST for that target with the credential, answered
    once, then exactly one console line and nothing else; the page is
    left as it was.  The line is a log exactly when the result is a
    success, and an error only with the network error result: no retry
    after a failure. *)
Theorem blockUser_one_request (env : Env) (w : World) (target : string) :
  falsy (csrf_token env) = false ->
  let req := blockRequest (csrf_token env) target in
  let out := endpoint env (trace w ++ [EFetchStart req]) req in
  exists level line,
    snd (blockUser env target w)
    = after w [EFetchStart req; EFetchEnd out; EConsole level line]
    /\ fid req = target
    /\ List.In ("csrf"%string, toParam (csrf_token env)) (body req)
    /\ (level = LogLevel <-> success (fst (blockUser env target w)) = true)
    /\ (level = ErrorLevel ->
        fst (blockUser env target w)
        = {| success := false; uid := Some target; msg := Some (JStr "Network Error") |}).
Proof.
  intros Htok req out. unfold blockUser, bind, fetch. rewrite Htok.
  fold req. fold out.
  assert (forall level line,
    mkWorld (document w) (((trace w ++ [EFetchStart req]) ++ [EFetchEnd out])
                             ++ [EConsole level line])
    = after w [EFetchStart req; EFetchEnd out; EConsole level line]) as Hw.
  { intros. unfold after. now rewrite <- !app_assoc. }
  assert (List.In ("csrf"%string, toParam (csrf_token env)) (body req)) as Hin.
  { simpl. tauto. }
  destruct out as [|[st [data|]]]; simpl.
  - exists ErrorLevel, [Lit "❌ Network error blocking UID "; Str target].
    rewrite Hw. repeat split; try assumption; try discriminate.
  - unfold interpretBody.
    destruct (getProp data "code") as [code|] eqn:Hc; simpl.
    + destruct (strict_eq_zero code); simpl.
      * exists LogLevel, [Lit "🚫 Blocked UID: "; Str target].
        rewrite Hw. repeat split; try assumption; try discriminate.
      * destruct (getProp_code_message data code Hc) as [m ->].
        destruct (toString_throws m); simpl.
        -- exists ErrorLevel, [Lit "❌ Network error blocking UID "; Str target].
           rewrite Hw. repeat split; try assumption; try discriminate.
        -- exists WarnLevel,
             [Lit "⚠️ Failed to block UID "; Str target; Lit ": "; Val m].
           rewrite Hw. repeat split; try assumption; try discriminate.
    + exists ErrorLevel, [Lit "❌ Network error blocking UID "; Str target].
      rewrite Hw. repeat split; try assumption; try discriminate.
  - exists ErrorLevel, [Lit "❌ Network error blocking UID "; Str target].
    rewrite Hw. repeat split; try assumption; try discriminate.
Qed.

Lemma blockUser_one_request_witness :
  filter is_request
    (trace (snd (blockUser banned_env "22" (mkWorld bare_document []))))
  = [EFetchStart (blockRequest (Some "token"%string) "22")].
Proof.
  destruct (blockUser_one_request banned_env (mkWorld bare_document []) "22" eq_refl)
    as (level & line & H & _).
  rewrite H. reflexivity.
Defined.

(** ** The orchestrator, path by path *)

Lemma Main_startBatchBlock_finish (env : Env) (w : World) :
  falsy (csrf_token env) = false ->
  Main.startBatchBlock env w
  = finish env Main.noCreatorsText Main.confirmText 300
      (fst (Main.getRecommendationUids w)) (snd (Main.getRecommendationUids w)).
Proof.
  intros Htok. unfold Main.startBatchBlock, finish, bind. rewrite Htok.
  now destruct (Main.getRecommendationUids w) as [uids w1].
Qed.

Lemma Expand_startBatchBlock_finish (env : Env) (w : World) :
  falsy (csrf_token env) = false ->
  Expand.startBatchBlock env w
  = finish env Expand.noCreatorsText Expand.confirmText 300
      (fst (Expand.getRecommendationUids (snd (Expand.expandListIfNeeded env w))))
      (snd (Expand.getRecommendationUids (snd (Expand.expandListIfNeeded env w)))).
Proof.
  intros Htok. unfold Expand.startBatchBlock, finish, bind. rewrite Htok.
  destruct (Expand.expandListIfNeeded env w) as [u w0]. cbn [snd].
  now destruct (Expand.getRecommendationUids w0) as [uids w1].
Qed.

Lemma Main_getRecommendationUids_run (w : World) :
  exists events,
    Main.getRecommendationUids w = (extracted (document w), after w events)
    /\ forallb is_extraction_event events = true.
Proof.
  unfold Main.getRecommendationUids, extracted, bind, document_querySelector.
  cbn [Main.containerSelector Main.upLinkSelector Main.CONFIG].
  destruct (querySelector (document w) ".recommend-list-v1") as [container|]; simpl.
  - eexists. split; [|shelve]. unfold after. rewrite <- !app_assoc. reflexivity.
    Unshelve. reflexivity.
  - eexists. split; [|shelve]. unfold after. rewrite <- !app_assoc. reflexivity.
    Unshelve. reflexivity.
Qed.

Lemma Expand_getRecommendationUids_run (w : World) :
  exists events,
    Expand.getRecommendationUids w = (extracted (document w), after w events)
    /\ forallb is_extraction_event events = true.
Proof.
  unfold Expand.getRecommendationUids, extracted, bind, document_querySelector.
  cbn [Expand.containerSelector Expand.upLinkSelector Expand.CONFIG].
  destruct (querySelector (document w) ".recommend-list-v1") as [container|]; simpl.
  - eexists. split; [|shelve]. unfold after. rewrite <- !app_assoc. reflexivity.
    Unshelve. reflexivity.
  - exists [EQuerySelector ".recommend-list-v1"]. split; reflexivity.
Qed.

Lemma blockUser_round_events (env : Env) (interval : Z) (target : string) (w : World) :
  exists events,
    snd (blockUser env target w) = after w events
    /\ forallb (is_round_event interval) events = true
    /\ overlay_texts events = [].
Proof.
  destruct (blockUser_events env target w) as (events & Hw & Hf & Ht).
  exists events. split; [exact Hw|].
  destruct (falsy (csrf_token env)) eqn:Htok.
  - rewrite (Hf eq_refl). split; reflexivity.
  - destruct (Ht eq_refl) as (out & level & line & ->). split; reflexivity.
Qed.

Lemma forLoop_round_events (env : Env) (interval total : Z) (ahead : list string) :
  forall (st : LoopState) (w : World),
  exists events,
    snd (forLoop env interval total ahead st w) = after w events
    /\ forallb (is_round_event interval) events = true
    /\ overlay_texts events = progress_from (i st) total ahead.
Proof.
  induction ahead as [|target more IH]; intros st w.
  - exists []. simpl. rewrite after_nil. repeat split.
  - rewrite forLoop_cons, loopBody_world.
    destruct (blockUser_round_events env interval target
                (after w [EOverlayText (progressText (i st) total target)]))
      as (ev1 & -> & H1 & T1).
    destruct (IH {| i := i st + 1; successCount := round_count env total target st w |}
                 (after (after (after w [EOverlayText (progressText (i st) total target)])
                           ev1) [ESleep interval]))
      as (ev2 & -> & H2 & T2).
    exists ([EOverlayText (progressText (i st) total target)]
              ++ ev1 ++ [ESleep interval] ++ ev2).
    split; [|split].
    + unfold after. cbn [document trace]. f_equal.
      repeat rewrite <- app_assoc. reflexivity.
    + rewrite !forallb_app, H1, H2. simpl. now rewrite Z.eqb_refl.
    + rewrite !overlay_texts_app, T1, T2. reflexivity.
Qed.

(** The events of a batch: the overlay, the rounds, the cleanup, the
    summary. *)
Lemma runBatch_shape (env : Env) (interval : Z) (uidArray : list string) (w : World) :
  exists rounds s,
    snd (runBatch env interval uidArray w)
    = after w (EOverlayCreate :: rounds ++
               [EOverlayRemove; EAlert (summaryText s (Z.of_nat (length uidArray)))])
    /\ forallb (is_round_event interval) rounds = true
    /\ overlay_texts rounds = progress_from 0 (Z.of_nat (length uidArray)) uidArray.
Proof.
  unfold runBatch, createStatusOverlay, bind. rewrite emit_after.
  destruct (forLoop_round_events env interval (Z.of_nat (length uidArray)) uidArray
              {| i := 0; successCount := 0 |} (after w [EOverlayCreate]))
    as (rounds & Hw & Hr & Ht).
  destruct (forLoop _ _ _ _ _ _) as [st w1]. simpl in Hw. subst w1.
  exists rounds, (successCount st). split; [|split; [exact Hr|exact Ht]].
  simpl. unfold alert, emit, after. simpl. f_equal.
  rewrite <- !app_assoc. reflexivity.
Qed.

Lemma forallb_existsb_false {A : Type} (p q : A -> bool) (l : list A) :
  (forall x, p x = true -> q x = false) ->
  forallb p l = true -> existsb q l = false.
Proof.
  intros Hpq. induction l as [|x l IH]; simpl; [reflexivity|].
  intros H. apply andb_true_iff in H as [Hx Hl].
  now rewrite (Hpq x Hx), IH.
Qed.

Lemma extraction_not_running (events : list Event) :
  forallb is_extraction_event events = true ->
  existsb is_running events = false /\ existsb is_confirmation events = false
  /\ existsb is_click events = false /\ schedule events = [].
Proof.
  intros H. repeat split.
  - revert H. apply forallb_existsb_false. now destruct x.
  - revert H. apply forallb_existsb_false. now destruct x.
  - revert H. apply forallb_existsb_false. now destruct x.
  - induction events as [|e events IH]; [reflexivity|].
    simpl in H. apply andb_true_iff in H as [He Hes].
    destruct e; try discriminate; simpl; now apply IH.
Qed.

Lemma length_zero_nil {A : Type} (l : list A) :
  (Z.of_nat (length l) =? 0) = true <-> l = [].
Proof.
  destruct l as [|x l]; split; intros H; try reflexivity; discriminate H.
Qed.

Lemma finish_empty (env : Env) (nc : Template) (ct : Z -> Template)
    (interval : Z) (w : World) :
  finish env nc ct interval [] w = (tt, after w [EAlert nc]).
Proof. reflexivity. Qed.

Lemma finish_declined (env : Env) (nc : Template) (ct : Z -> Template)
    (interval : Z) (uids : list string) (w : World) :
  uids <> [] ->
  user_confirms env (trace w) (ct (Z.of_nat (length uids))) = false ->
  finish env nc ct interval uids w
  = (tt, after w [EConfirm (ct (Z.of_nat (length uids))) false]).
Proof.
  intros Hne Hno. unfold finish.
  destruct (Z.of_nat (length uids) =? 0) eqn:E.
  - apply length_zero_nil in E. contradiction.
  - unfold bind, confirm. now rewrite Hno.
Qed.

Lemma finish_confirmed (env : Env) (nc : Template) (ct : Z -> Template)
    (interval : Z) (uids : list string) (w : World) :
  uids <> [] ->
  user_confirms env (trace w) (ct (Z.of_nat (length uids))) = true ->
  finish env nc ct interval uids w
  = runBatch env interval uids
      (after w [EConfirm (ct (Z.of_nat (length uids))) true]).
Proof.
  intros Hne Hyes. unfold finish.
  destruct (Z.of_nat (length uids) =? 0) eqn:E.
  - apply length_zero_nil in E. contradiction.
  - unfold bind, confirm. now rewrite Hyes.
Qed.

Lemma finish_events (env : Env) (nc : Template) (ct : Z -> Template)
    (interval : Z) (uids : list string) (w : World) :
  exists events,
    snd (finish env nc ct interval uids w) = after w events
    /\ forallb (is_finish_event interval) events = true
    /\ (existsb is_running events = true ->
        exists msg post,
          events = EConfirm msg true :: post
          /\ existsb is_confirmation post = false).
Proof.
  destruct uids as [|u uids].
  - rewrite finish_empty. exists [EAlert nc]. repeat split. discriminate.
  - destruct (user_confirms env (trace w) (ct (Z.of_nat (length (u :: uids))))) eqn:Hc.
    + rewrite (finish_confirmed env nc ct interval (u :: uids) w) by (assumption || discriminate).
      destruct (runBatch_shape env interval (u :: uids)
                  (after w [EConfirm (ct (Z.of_nat (length (u :: uids)))) true]))
        as (rounds & s & -> & Hr & _).
      eexists. rewrite after_after. split; [reflexivity|].
      assert (existsb is_confirmation rounds = false) as Hnc.
      { revert Hr. apply forallb_existsb_false. now destruct x. }
      split.
      * cbn [app forallb is_finish_event andb]. rewrite forallb_app. cbn.
        rewrite andb_true_r. clear Hnc. induction rounds as [|e rounds IH]; [reflexivity|].
        simpl in Hr. apply andb_true_iff in Hr as [He Hr]. simpl.
        rewrite (IH Hr), andb_true_r. now destruct e.
      * intros _. eexists _, _. split; [reflexivity|].
        cbn [existsb is_confirmation orb]. rewrite existsb_app, Hnc. reflexivity.
    + rewrite (finish_declined env nc ct interval (u :: uids) w) by (assumption || discriminate).
      eexists. split; [reflexivity|]. split; [reflexivity|]. discriminate.
Qed.

Lemma finish_event_no_click (interval : Z) (events : list Event) :
  forallb (is_finish_event interval) events = true -> existsb is_click events = false.
Proof. apply forallb_existsb_false. now destruct x. Qed.

Lemma Main_confirmed_before_running (env : Env) (w : World) :
  exists events,
    trace (snd (Main.startBatchBlock env w)) = trace w ++ events
    /\ confirmed_before_running events
    /\ existsb is_click events = false.
Proof.
  destruct (falsy (csrf_token env)) eqn:Htok.
  - exists [EAlert Main.loginText]. unfold Main.startBatchBlock. rewrite Htok.
    split; [reflexivity|]. split; [discriminate|reflexivity].
  - rewrite (Main_startBatchBlock_finish env w Htok).
    destruct (Main_getRecommendationUids_run w) as (ev1 & -> & H1).
    cbn [fst snd].
    destruct (finish_events env Main.noCreatorsText Main.confirmText 300
                (extracted (document w)) (after w ev1)) as (ev2 & -> & H2 & Hrun).
    destruct (extraction_not_running ev1 H1) as (Hr1 & Hc1 & Hk1 & _).
    exists (ev1 ++ ev2). rewrite after_after. split; [reflexivity|]. split.
    + intros Hr. rewrite existsb_app, Hr1 in Hr. simpl in Hr.
      destruct (Hrun Hr) as (msg & post & -> & Hpost).
      now exists ev1, msg, post.
    + now rewrite existsb_app, Hk1, (finish_event_no_click 300 ev2 H2).
Qed.

Lemma Expand_confirmed_before_running (env : Env) (w : World) :
  exists events,
    trace (snd (Expand.startBatchBlock env w)) = trace w ++ events
    /\ confirmed_before_running events.
Proof.
  destruct (falsy (csrf_token env)) eqn:Htok.
  - exists [EAlert Expand.loginText]. unfold Expand.startBatchBlock. rewrite Htok.
    split; [reflexivity|discriminate].
  - rewrite (Expand_startBatchBlock_finish env w Htok).
    destruct (expandListIfNeeded_events env w) as (ev0 & H0 & Hc0 & Hr0).
    destruct (Expand_getRecommendationUids_run (snd (Expand.expandListIfNeeded env w)))
      as (ev1 & -> & H1).
    cbn [fst snd].
    destruct (finish_events env Expand.noCreatorsText Expand.confirmText 300
                (extracted (document (snd (Expand.expandListIfNeeded env w))))
                (after (snd (Expand.expandListIfNeeded env w)) ev1))
      as (ev2 & -> & H2 & Hrun).
    destruct (extraction_not_running ev1 H1) as (Hr1 & Hc1 & _).
    exists (ev0 ++ ev1 ++ ev2). unfold after. cbn [trace]. rewrite H0.
    split; [now rewrite <- !app_assoc|].
    intros Hr. rewrite !existsb_app, Hr0, Hr1 in Hr. simpl in Hr.
    destruct (Hrun Hr) as (msg & post & -> & Hpost).
    exists (ev0 ++ ev1), msg, post. rewrite <- app_assoc.
    split; [reflexivity|]. rewrite !existsb_app, Hr0, Hr1, Hc0, Hc1. repeat split.
    exact Hpost.
Qed.

Lemma filter_none {A : Type} (p : A -> bool) (l : list A) :
  existsb p l = false -> length (filter p l) = 0%nat.
Proof.
  induction l as [|x l IH]; simpl; [reflexivity|].
  intros H. apply orb_false_iff in H as [Hx Hl]. rewrite Hx. now apply IH.
Qed.

Lemma finish_asks_once (env : Env) (nc : Template) (ct : Z -> Template)
    (interval : Z) (uids : list string) (w : World) :
  exists events,
    snd (finish env nc ct interval uids w) = after w events
    /\ (length (filter is_confirmation events) <= 1)%nat.
Proof.
  destruct uids as [|u uids].
  - rewrite finish_empty. exists [EAlert nc]. split; [reflexivity|simpl; lia].
  - destruct (user_confirms env (trace w) (ct (Z.of_nat (length (u :: uids))))) eqn:Hc.
    + rewrite (finish_confirmed env nc ct interval (u :: uids) w) by (assumption || discriminate).
      destruct (runBatch_shape env interval (u :: uids)
                  (after w [EConfirm (ct (Z.of_nat (length (u :: uids)))) true]))
        as (rounds & s & -> & Hr & _).
      eexists. rewrite after_after. split; [reflexivity|].
      assert (existsb is_confirmation rounds = false) as Hnc.
      { revert Hr. apply forallb_existsb_false. now destruct x. }
      cbn [app filter is_confirmation length]. rewrite filter_app, length_app.
      rewrite (filter_none _ _ Hnc). simpl. lia.
    + rewrite (finish_declined env nc ct interval (u :: uids) w) by (assumption || discriminate).
      eexists. split; [reflexivity|simpl; lia].
Qed.

Lemma Main_asks_once (env : Env) (w : World) :
  exists events,
    trace (snd (Main.startBatchBlock env w)) = trace w ++ events
    /\ asked_at_most_once events.
Proof.
  unfold asked_at_most_once.
  destruct (falsy (csrf_token env)) eqn:Htok.
  - exists [EAlert Main.loginText]. unfold Main.startBatchBlock. rewrite Htok.
    split; [reflexivity|simpl; lia].
  - rewrite (Main_startBatchBlock_finish env w Htok).
    destruct (Main_getRecommendationUids_run w) as (ev1 & -> & H1).
    cbn [fst snd].
    destruct (finish_asks_once env Main.noCreatorsText Main.confirmText 300
                (extracted (document w)) (after w ev1)) as (ev2 & -> & H2).
    destruct (extraction_not_running ev1 H1) as (_ & Hc1 & _).
    exists (ev1 ++ ev2). rewrite after_after. split; [reflexivity|].
    rewrite filter_app, length_app, (filter_none _ _ Hc1). exact H2.
Qed.

Lemma Expand_asks_once (env : Env) (w : World) :
  exists events,
    trace (snd (Expand.startBatchBlock env w)) = trace w ++ events
    /\ asked_at_most_once events.
Proof.
  unfold asked_at_most_once.
  destruct (falsy (csrf_token env)) eqn:Htok.
  - exists [EAlert Expand.loginText]. unfold Expand.startBatchBlock. rewrite Htok.
    split; [reflexivity|simpl; lia].
  - rewrite (Expand_startBatchBlock_finish env w Htok).
    destruct (expandListIfNeeded_events env w) as (ev0 & H0 & Hc0 & _).
    destruct (Expand_getRecommendationUids_run (snd (Expand.expandListIfNeeded env w)))
      as (ev1 & -> & H1).
    cbn [fst snd].
    destruct (finish_asks_once env Expand.noCreatorsText Expand.confirmText 300
                (extracted (document (snd (Expand.expandListIfNeeded env w))))
                (after (snd (Expand.expandListIfNeeded env w)) ev1))
      as (ev2 & -> & H2).
    destruct (extraction_not_running ev1 H1) as (_ & Hc1 & _).
    exists (ev0 ++ ev1 ++ ev2). unfold after. cbn [trace]. rewrite H0.
    split; [now rewrite <- !app_assoc|].
    rewrite !filter_app, !length_app, (filter_none _ _ Hc0), (filter_none _ _ Hc1).
    exact H2.
Qed.

(** X7. Whatever the page, the provider and the user do, a run of the
    orchestrator of either variant asks for the confirmation at most
    once, whether or not anything runs, and it creates no overlay and
    sends no request unless the user has answered yes to that
    confirmation before. *)
Theorem nothing_runs_before_confirmation (env : Env) (w : World) :
  (exists events,
     trace (snd (Main.startBatchBlock env w)) = trace w ++ events
     /\ asked_at_most_once events
     /\ confirmed_before_running events)
  /\ (exists events,
        trace (snd (Expand.startBatchBlock env w)) = trace w ++ events
        /\ asked_at_most_once events
        /\ confirmed_before_running events).
Proof.
  split.
  - destruct (Main_confirmed_before_running env w) as (events & H1 & H2 & _).
    destruct (Main_asks_once env w) as (events' & H1' & H3).
    rewrite H1 in H1'. apply app_inv_head in H1'. subst events'.
    now exists events.
  - destruct (Expand_confirmed_before_running env w) as (events & H1 & H2).
    destruct (Expand_asks_once env w) as (events' & H1' & H3).
    rewrite H1 in H1'. apply app_inv_head in H1'. subst events'.
    now exists events.
Qed.

Lemma nothing_runs_before_confirmation_witness :
  exists pre post,
    trace (snd (Main.startBatchBlock (fixture_env (Some "tok"%string))
                  (mkWorld (fixture_document None) [])))
    = pre ++ EConfirm (Main.confirmText 3) true :: post
    /\ existsb is_running pre = false.
Proof.
  destruct (nothing_runs_before_confirmation (fixture_env (Some "tok"%string))
              (mkWorld (fixture_document None) [])) as ((events & Ht & _ & Hc) & _).
  simpl app in Ht.
  assert (existsb is_running events = true) as Hr by (rewrite <- Ht; reflexivity).
  destruct (Hc Hr) as (pre & msg & post & He & Hpre & Hcf & _).
  exists pre, post. split; [|exact Hpre].
  rewrite Ht, He. do 2 f_equal.
  assert (filter is_confirmation (pre ++ EConfirm msg true :: post)
          = [EConfirm (Main.confirmText 3) true]) as Hf
    by (rewrite <- He, <- Ht; reflexivity).
  rewrite filter_app in Hf. cbn [filter is_confirmation] in Hf.
  assert (filter is_confirmation pre = []) as Hp.
  { clear -Hcf. induction pre as [|e pre IH]; [reflexivity|].
    simpl in Hcf. apply orb_false_iff in Hcf as [He Hp]. simpl. rewrite He. now apply IH. }
  rewrite Hp in Hf. simpl in Hf. now inversion Hf.
Defined.

Lemma call_targets_rounds (interval : Z) (uids : list string) :
  call_targets (flat_map (round_steps interval) uids) = uids.
Proof. induction uids as [|u uids IH]; simpl; [reflexivity|now rewrite IH]. Qed.

Lemma total_wait_rounds (interval : Z) (uids : list string) :
  total_wait (flat_map (round_steps interval) uids) = interval * Z.of_nat (length uids).
Proof.
  induction uids as [|u uids IH]; [simpl; lia|].
  cbn [flat_map round_steps app total_wait length]. rewrite IH. lia.
Qed.

Lemma extracted_NoDup (d : Document) : NoDup (extracted d).
Proof.
  unfold extracted. destruct (querySelector d _) as [c|]; [|constructor].
  rewrite collectUids_keep_first. apply keep_first_NoDup.
Qed.

Lemma finish_confirmed_schedule (env : Env) (nc : Template) (ct : Z -> Template)
    (interval : Z) (uids : list string) (w : World) :
  falsy (csrf_token env) = false ->
  uids <> [] ->
  user_confirms env (trace w) (ct (Z.of_nat (length uids))) = true ->
  exists events s,
    snd (finish env nc ct interval uids w)
    = after w (events ++ [EAlert (summaryText s (Z.of_nat (length uids)))])
    /\ schedule events = flat_map (round_steps interval) uids
    /\ 0 <= s <= Z.of_nat (length uids).
Proof.
  intros Htok Hne Hyes. rewrite (finish_confirmed env nc ct interval uids w Hne Hyes).
  destruct (runBatch_events env interval uids
              (after w [EConfirm (ct (Z.of_nat (length uids))) true]) Htok)
    as (rounds & -> & _ & Hs & _).
  destruct (forLoop_after env interval (Z.of_nat (length uids)) uids
              {| i := 0; successCount := 0 |}
              (after (after w [EConfirm (ct (Z.of_nat (length uids))) true])
                 [EOverlayCreate])) as (ev & _ & _ & Hb).
  exists ([EConfirm (ct (Z.of_nat (length uids))) true; EOverlayCreate]
            ++ rounds ++ [EOverlayRemove]).
  exists (successCount
            (fst (forLoop env interval (Z.of_nat (length uids)) uids
                    {| i := 0; successCount := 0 |}
                    (after (after w [EConfirm (ct (Z.of_nat (length uids))) true])
                       [EOverlayCreate])))).
  split; [|split].
  - rewrite after_after. f_equal. simpl. now rewrite <- app_assoc.
  - rewrite !schedule_app, Hs. simpl. now rewrite app_nil_r.
  - simpl in Hb. lia.
Qed.

(** X8. When the user declines the confirmation, the run of either
    variant ends with that answer: after the extraction (and, in the
    variant that has it, the expansion step) the declined confirmation is
    the last event, so there is no overlay, no request, no wait of the
    loop and no further dialog. *)
Theorem declined_confirmation_ends_run (env : Env) (w : World) :
  falsy (csrf_token env) = false ->
  (forall h msg, user_confirms env h msg = false) ->
  (extracted (document w) <> [] ->
   Main.startBatchBlock env w
   = (tt, after (snd (Main.getRecommendationUids w))
            [EConfirm (Main.confirmText (Z.of_nat (length (extracted (document w))))) false]))
  /\ (let w0 := snd (Expand.expandListIfNeeded env w) in
      extracted (document w0) <> [] ->
      Expand.startBatchBlock env w
      = (tt, after (snd (Expand.getRecommendationUids w0))
               [EConfirm (Expand.confirmText
                            (Z.of_nat (length (extracted (document w0))))) false]))
  /\ (exists events,
        trace (snd (Main.startBatchBlock env w)) = trace w ++ events
        /\ existsb is_running events = false)
  /\ (exists events,
        trace (snd (Expand.startBatchBlock env w)) = trace w ++ events
        /\ existsb is_running events = false).
Proof.
  intros Htok Hno. split; [|split; [|split]].
  - intros Hne. rewrite (Main_startBatchBlock_finish env w Htok).
    destruct (Main_getRecommendationUids_run w) as (ev1 & -> & _). cbn [fst snd].
    now apply finish_declined.
  - intros w0 Hne. rewrite (Expand_startBatchBlock_finish env w Htok). fold w0.
    destruct (Expand_getRecommendationUids_run w0) as (ev1 & -> & _). cbn [fst snd].
    now apply finish_declined.
  - destruct (Main_confirmed_before_running env w) as (events & Ht & Hc & _).
    exists events. split; [exact Ht|].
    destruct (existsb is_running events) eqn:Hr; [|reflexivity].
    exfalso.
    rewrite (Main_startBatchBlock_finish env w Htok) in Ht.
    destruct (Main_getRecommendationUids_run w) as (ev1 & Hg & H1).
    rewrite Hg in Ht. cbn [fst snd] in Ht.
    destruct (extracted (document w)) as [|u uids] eqn:Hx.
    + rewrite finish_empty in Ht. cbn [snd after trace] in Ht.
      rewrite <- app_assoc in Ht. apply app_inv_head in Ht. subst events.
      destruct (extraction_not_running ev1 H1) as (Hr1 & _).
      rewrite existsb_app, Hr1 in Hr. discriminate Hr.
    + rewrite (finish_declined env _ _ 300 (u :: uids) (after w ev1)) in Ht
        by (discriminate || apply Hno).
      cbn [snd after trace] in Ht.
      rewrite <- app_assoc in Ht. apply app_inv_head in Ht. subst events.
      destruct (extraction_not_running ev1 H1) as (Hr1 & _).
      rewrite existsb_app, Hr1 in Hr. discriminate Hr.
  - destruct (Expand_confirmed_before_running env w) as (events & Ht & Hc).
    exists events. split; [exact Ht|].
    destruct (existsb is_running events) eqn:Hr; [|reflexivity].
    exfalso.
    rewrite (Expand_startBatchBlock_finish env w Htok) in Ht.
    destruct (expandListIfNeeded_events env w) as (ev0 & H0 & Hc0 & Hr0).
    destruct (Expand_getRecommendationUids_run (snd (Expand.expandListIfNeeded env w)))
      as (ev1 & Hg & H1).
    rewrite Hg in Ht. cbn [fst snd] in Ht.
    destruct (extraction_not_running ev1 H1) as (Hr1 & _).
    destruct (extracted (document (snd (Expand.expandListIfNeeded env w))))
      as [|u uids] eqn:Hx.
    + rewrite finish_empty in Ht. cbn [snd after trace] in Ht.
      rewrite H0, <- !app_assoc in Ht. apply app_inv_head in Ht. subst events.
      rewrite !existsb_app, Hr0, Hr1 in Hr. discriminate Hr.
    + rewrite (finish_declined env _ _ 300 (u :: uids)) in Ht
        by (discriminate || apply Hno).
      cbn [snd after trace] in Ht.
      rewrite H0, <- !app_assoc in Ht. apply app_inv_head in Ht. subst events.
      rewrite !existsb_app, Hr0, Hr1 in Hr. discriminate Hr.
Qed.

Lemma declined_confirmation_ends_run_witness :
  trace (snd (Main.startBatchBlock declining_env (mkWorld (fixture_document None) [])))
  = [EQuerySelector ".recommend-list-v1";
     EQuerySelectorAll ".video-page-card-small .upname a";
     EConsole LogLevel
       [Lit "📥 Found "; Num 3; Lit " unique creators in the list."];
     EConfirm (Main.confirmText 3) false].
Proof.
  destruct (declined_confirmation_ends_run declining_env
              (mkWorld (fixture_document None) []) eq_refl (fun _ _ => eq_refl))
    as (H & _).
  rewrite H; [reflexivity|discriminate].
Defined.

Lemma extracted_present (d : Document) (container : Element) :
  querySelector d ".recommend-list-v1" = Some container ->
  extracted d
  = keep_first (parsed_ids (querySelectorAll container ".video-page-card-small .upname a")).
Proof. intros H. unfold extracted. rewrite H. apply collectUids_keep_first. Qed.

Lemma keep_first_nil (ids : list string) : keep_first ids = [] -> ids = [].
Proof. destruct ids; [reflexivity|discriminate]. Qed.

(** X9. When the container is on the page but none of its links carries
    an identifier, the run of either variant queries the container and
    its links, logs that it found 0 creators, alerts that no creators
    were found and stops there: the user is not asked to confirm
    anything. *)
Theorem no_profile_links_no_confirmation (env : Env) (w : World) :
  falsy (csrf_token env) = false ->
  (forall container,
     querySelector (document w) ".recommend-list-v1" = Some container ->
     parsed_ids (querySelectorAll container ".video-page-card-small .upname a") = [] ->
     Main.startBatchBlock env w
     = (tt, after w [EQuerySelector ".recommend-list-v1";
                     EQuerySelectorAll ".video-page-card-small .upname a";
                     EConsole LogLevel [Lit "📥 Found "; Num 0;
                                        Lit " unique creators in the list."];
                     EAlert Main.noCreatorsText]))
  /\ (let w0 := snd (Expand.expandListIfNeeded env w) in
      forall container,
        querySelector (document w0) ".recommend-list-v1" = Some container ->
        parsed_ids (querySelectorAll container ".video-page-card-small .upname a") = [] ->
        Expand.startBatchBlock env w
        = (tt, after w0 [EQuerySelector ".recommend-list-v1";
                         EQuerySelectorAll ".video-page-card-small .upname a";
                         EConsole LogLevel [Lit "📥 Found "; Num 0;
                                            Lit " unique creators."];
                         EAlert Expand.noCreatorsText])).
Proof.
  intros Htok. split.
  - intros container Hc Hids.
    unfold Main.startBatchBlock, Main.getRecommendationUids, bind, document_querySelector.
    rewrite Htok. cbn [Main.containerSelector Main.upLinkSelector Main.CONFIG].
    rewrite Hc. cbn [element_querySelectorAll].
    rewrite collectUids_keep_first, Hids. simpl.
    unfold alert, emit, after. simpl. rewrite <- !app_assoc. reflexivity.
  - intros w0 container Hc Hids.
    unfold Expand.startBatchBlock, bind. rewrite Htok.
    destruct (Expand.expandListIfNeeded env w) as [u w1]. cbn [snd] in w0. subst w0.
    unfold Expand.getRecommendationUids, bind, document_querySelector.
    cbn [Expand.containerSelector Expand.upLinkSelector Expand.CONFIG].
    rewrite Hc. cbn [element_querySelectorAll].
    rewrite collectUids_keep_first, Hids. simpl.
    unfold alert, emit, after. simpl. rewrite <- !app_assoc. reflexivity.
Qed.

Lemma no_profile_links_no_confirmation_witness :
  trace (snd (Expand.startBatchBlock (fixture_env (Some "tok"%string))
                (mkWorld plain_document [])))
  = [EQuerySelector ".recommend-list-v1 .rec-footer";
     EConsole LogLevel Expand.expandSkippedText;
     EQuerySelector ".recommend-list-v1";
     EQuerySelectorAll ".video-page-card-small .upname a";
     EConsole LogLevel [Lit "📥 Found "; Num 0; Lit " unique creators."];
     EAlert Expand.noCreatorsText].
Proof.
  destruct (no_profile_links_no_confirmation (fixture_env (Some "tok"%string))
              (mkWorld plain_document []) eq_refl) as (_ & H).
  rewrite (H plain_container eq_refl eq_refl). reflexivity.
Defined.

(** X10. A confirmed run calls every extracted creator exactly once.
    With a credential and a user who confirms, the calls of the run are
    the extracted identifiers in their order, no identifier twice; each
    call is followed by the wait of 300 ms, so n creators cost n requests
    and n times 300 ms of waiting (plus the 1500 ms of the expansion when
    the variant that has it clicked); the run ends with the summary
    s of n, s between 0 and n. *)
Theorem confirmed_run_calls_each_creator_once (env : Env) (w : World) :
  falsy (csrf_token env) = false ->
  (forall h msg, user_confirms env h msg = true) ->
  (let uids := extracted (document w) in
   uids <> [] ->
   exists events s,
     trace (snd (Main.startBatchBlock env w))
     = trace w ++ events ++ [EAlert (summaryText s (Z.of_nat (length uids)))]
     /\ schedule events = flat_map (round_steps 300) uids
     /\ call_targets (schedule events) = uids
     /\ NoDup (call_targets (schedule events))
     /\ total_wait (schedule events) = 300 * Z.of_nat (length uids)
     /\ 0 <= s <= Z.of_nat (length uids))
  /\ (let w0 := snd (Expand.expandListIfNeeded env w) in
      let uids := extracted (document w0) in
      let expansion :=
        if Expand.present_and_visible
             (querySelector (document w) ".recommend-list-v1 .rec-footer")
        then [Wait 1500] else [] in
      uids <> [] ->
      exists events s,
        trace (snd (Expand.startBatchBlock env w))
        = trace w ++ events ++ [EAlert (summaryText s (Z.of_nat (length uids)))]
        /\ schedule events = expansion ++ flat_map (round_steps 300) uids
        /\ call_targets (schedule events) = uids
        /\ NoDup (call_targets (schedule events))
        /\ total_wait (schedule events)
           = total_wait expansion + 300 * Z.of_nat (length uids)
        /\ 0 <= s <= Z.of_nat (length uids)).
Proof.
  intros Htok Hyes. split.
  - intros uids Hne. rewrite (Main_startBatchBlock_finish env w Htok).
    destruct (Main_getRecommendationUids_run w) as (ev1 & -> & H1). cbn [fst snd].
    fold uids.
    destruct (finish_confirmed_schedule env Main.noCreatorsText Main.confirmText 300
                uids (after w ev1) Htok Hne (Hyes _ _)) as (ev2 & s & -> & Hs & Hb).
    destruct (extraction_not_running ev1 H1) as (_ & _ & _ & Hs1).
    exists (ev1 ++ ev2), s.
    assert (schedule (ev1 ++ ev2) = flat_map (round_steps 300) uids) as Hsch.
    { now rewrite schedule_app, Hs1, Hs. }
    split; [rewrite after_after; cbn [after trace]; now rewrite <- !app_assoc|].
    split; [exact Hsch|]. rewrite Hsch, call_targets_rounds, total_wait_rounds.
    repeat split; try lia. apply extracted_NoDup.
  - intros w0 uids expansion Hne.
    rewrite (Expand_startBatchBlock_finish env w Htok). fold w0.
    destruct (Expand_getRecommendationUids_run w0) as (ev1 & -> & H1). cbn [fst snd].
    fold uids.
    destruct (finish_confirmed_schedule env Expand.noCreatorsText Expand.confirmText 300
                uids (after w0 ev1) Htok Hne (Hyes _ _)) as (ev2 & s & -> & Hs & Hb).
    destruct (extraction_not_running ev1 H1) as (_ & _ & _ & Hs1).
    assert (exists ev0, trace w0 = trace w ++ ev0 /\ schedule ev0 = expansion)
      as (ev0 & H0 & Hs0).
    { unfold w0, expansion.
      destruct (Expand.present_and_visible
                  (querySelector (document w) ".recommend-list-v1 .rec-footer")) eqn:Hv.
      - rewrite (expandListIfNeeded_visible env w Hv). eexists. split; reflexivity.
      - rewrite (expandListIfNeeded_hidden env w Hv). eexists. split; reflexivity. }
    exists (ev0 ++ ev1 ++ ev2), s.
    assert (schedule (ev0 ++ ev1 ++ ev2) = expansion ++ flat_map (round_steps 300) uids)
      as Hsch.
    { now rewrite !schedule_app, Hs0, Hs1, Hs. }
    split; [rewrite after_after; cbn [after trace]; rewrite H0; now rewrite <- !app_assoc|].
    split; [exact Hsch|]. rewrite Hsch.
    assert (call_targets (expansion ++ flat_map (round_steps 300) uids) = uids) as Hct.
    { unfold expansion. destruct (Expand.present_and_visible _);
        cbn [app call_targets]; apply call_targets_rounds. }
    assert (total_wait (expansion ++ flat_map (round_steps 300) uids)
            = total_wait expansion + 300 * Z.of_nat (length uids)) as Htw.
    { unfold expansion. destruct (Expand.present_and_visible _);
        cbn [app total_wait]; rewrite total_wait_rounds; lia. }
    rewrite Hct, Htw. repeat split; try lia. apply extracted_NoDup.
Qed.

Lemma confirmed_run_calls_each_creator_once_witness :
  exists events s,
    trace (snd (Expand.startBatchBlock (fixture_env (Some "tok"%string))
                  (mkWorld (fixture_document (Some visible_footer)) [])))
    = events ++ [EAlert (summaryText s 3)]
    /\ call_targets (schedule events) = ["22"; "11"; "33"]%string
    /\ total_wait (schedule events) = 2400.
Proof.
  destruct (confirmed_run_calls_each_creator_once (fixture_env (Some "tok"%string))
              (mkWorld (fixture_document (Some visible_footer)) [])
              eq_refl (fun _ _ => eq_refl)) as (_ & H).
  destruct H as (events & s & Ht & _ & Hc & _ & Hw & _); [discriminate|].
  exists events, s. split; [exact Ht|]. split; [exact Hc|exact Hw].
Defined.

(** ** The overlay *)

Lemma display_and_calls_app (a b : list Event) :
  display_and_calls (a ++ b) = display_and_calls a ++ display_and_calls b.
Proof.
  induction a as [|e a IH]; simpl; [reflexivity|].
  destruct e; simpl; now rewrite ?IH.
Qed.

Lemma progress_from_nth (uids : list string) :
  forall (k : nat) (index total : Z) (target : string),
  nth_error uids k = Some target ->
  nth_error (progress_from index total uids) k
  = Some (progressText (index + Z.of_nat k) total target).
Proof.
  induction uids as [|u uids IH]; intros k index total target H.
  - destruct k; discriminate.
  - destruct k as [|k]; simpl in *.
    + inversion H; subst. now rewrite Z.add_0_r.
    + rewrite (IH k (index + 1) total target H). do 2 f_equal. lia.
Qed.

Lemma progress_from_length (index total : Z) (uids : list string) :
  length (progress_from index total uids) = length uids.
Proof.
  revert index. induction uids as [|u uids IH]; intros index; simpl;
    [reflexivity|now rewrite IH].
Qed.

Lemma forLoop_display (env : Env) (interval total : Z) (ahead : list string) :
  falsy (csrf_token env) = false ->
  forall (st : LoopState) (w : World),
  exists events,
    snd (forLoop env interval total ahead st w) = after w events
    /\ display_and_calls events = text_then_call (i st) total ahead.
Proof.
  intros Htok. induction ahead as [|target more IH]; intros st w.
  - exists []. simpl. now rewrite after_nil.
  - rewrite forLoop_cons, loopBody_world.
    destruct (blockUser_events env target
                (after w [EOverlayText (progressText (i st) total target)]))
      as (ev1 & -> & _ & Hev).
    destruct (Hev Htok) as (out & level & line & ->).
    destruct (IH {| i := i st + 1; successCount := round_count env total target st w |}
                 (after (after (after w [EOverlayText (progressText (i st) total target)])
                           [EFetchStart (blockRequest (csrf_token env) target);
                            EFetchEnd out; EConsole level line]) [ESleep interval]))
      as (ev2 & -> & H2).
    eexists. split.
    + rewrite !after_after. reflexivity.
    + rewrite !display_and_calls_app, H2. reflexivity.
Qed.

(** X11. The overlay of a batch.  A batch creates the overlay once, as
    its first step, and removes it once, right before the summary alert;
    in between it sets the overlay text once per identifier, the k-th
    text (counting from 0) showing k+1 of n and the k-th identifier, and
    it sets that text before it sends the request of the round. *)
Theorem overlay_shows_each_round (env : Env) (interval : Z)
    (uidArray : list string) (w : World) :
  falsy (csrf_token env) = false ->
  exists rounds s,
    snd (runBatch env interval uidArray w)
    = after w (EOverlayCreate :: rounds ++
               [EOverlayRemove; EAlert (summaryText s (Z.of_nat (length uidArray)))])
    /\ existsb is_overlay_create rounds = false
    /\ existsb is_overlay_remove rounds = false
    /\ length (overlay_texts rounds) = length uidArray
    /\ (forall k target,
          nth_error uidArray k = Some target ->
          nth_error (overlay_texts rounds) k
          = Some (progressText (Z.of_nat k) (Z.of_nat (length uidArray)) target))
    /\ display_and_calls rounds
       = text_then_call 0 (Z.of_nat (length uidArray)) uidArray.
Proof.
  intros Htok.
  destruct (runBatch_shape env interval uidArray w) as (rounds & s & Hw & Hr & Ht).
  exists rounds, s. split; [exact Hw|].
  split; [revert Hr; apply forallb_existsb_false; now destruct x|].
  split; [revert Hr; apply forallb_existsb_false; now destruct x|].
  split; [rewrite Ht; apply progress_from_length|].
  split.
  - intros k target Hk. rewrite Ht. now rewrite (progress_from_nth uidArray k 0 _ target Hk).
  - destruct (forLoop_display env interval (Z.of_nat (length uidArray)) uidArray Htok
                {| i := 0; successCount := 0 |} (after w [EOverlayCreate]))
      as (events & Hw' & Hd).
    assert (events = rounds) as <-; [|exact Hd].
    unfold runBatch, createStatusOverlay, bind in Hw. rewrite emit_after in Hw.
    destruct (forLoop _ _ _ _ _ _) as [st w1]. cbn [snd] in Hw, Hw'. subst w1.
    simpl in Hw. unfold alert, emit, after in Hw. cbn [document trace] in Hw.
    inversion Hw as [Htr].
    rewrite <- !app_assoc in Htr. apply app_inv_head in Htr.
    cbn [app] in Htr. inversion Htr as [Htr'].
    change [EOverlayRemove; EAlert (summaryText (successCount st) (Z.of_nat (length uidArray)))]
      with ([EOverlayRemove] ++ [EAlert (summaryText (successCount st) (Z.of_nat (length uidArray)))])
      in Htr'.
    change [EOverlayRemove; EAlert (summaryText s (Z.of_nat (length uidArray)))]
      with ([EOverlayRemove] ++ [EAlert (summaryText s (Z.of_nat (length uidArray)))])
      in Htr'.
    rewrite !app_assoc in Htr'. apply app_inj_tail in Htr' as [Htr' _].
    now apply app_inj_tail in Htr' as [Htr' _].
Qed.

Lemma overlay_shows_each_round_witness :
  exists rounds,
    overlay_texts rounds = [progressText 0 2 "22"; progressText 1 2 "33"]
    /\ display_and_calls rounds
       = [inl (progressText 0 2 "22"); inr "22"%string;
          inl (progressText 1 2 "33"); inr "33"%string].
Proof.
  destruct (overlay_shows_each_round (fixture_env (Some "tok"%string)) 300
              ["22"; "33"]%string (mkWorld bare_document []) eq_refl)
    as (rounds & s & Hw & _ & _ & _ & _ & Hd).
  exists rounds. split; [|exact Hd].
  simpl in Hw. unfold after in Hw. simpl in Hw. inversion Hw as [Htr].
  assert (overlay_texts
            (rounds ++ [EOverlayRemove; EAlert (summaryText s 2)])
          = [progressText 0 2 "22"; progressText 1 2 "33"]) as Ho
    by (rewrite <- Htr; reflexivity).
  rewrite overlay_texts_app in Ho. simpl in Ho. now rewrite app_nil_r in Ho.
Defined.

(** ** Clicks *)

Lemma existsb_false_filter {A : Type} (p : A -> bool) (l : list A) :
  existsb p l = false -> filter p l = [].
Proof.
  induction l as [|x l IH]; simpl; [reflexivity|].
  intros H. apply orb_false_iff in H as [Hx Hl]. rewrite Hx. now apply IH.
Qed.

(** X12. The only click of the script is the one on the expand control.
    main.js never clicks anything during a run.  The variant with the
    expansion step clicks once per run when it has a credential and
    finds the control visible, and not at all otherwise. *)
Theorem only_the_expand_control_is_clicked (env : Env) (w : World) :
  (exists events,
     trace (snd (Main.startBatchBlock env w)) = trace w ++ events
     /\ filter is_click events = [])
  /\ (exists events,
        trace (snd (Expand.startBatchBlock env w)) = trace w ++ events
        /\ filter is_click events
           = if negb (falsy (csrf_token env))
                && Expand.present_and_visible
                     (querySelector (document w) ".recommend-list-v1 .rec-footer")
             then [EClick] else []).
Proof.
  split.
  - destruct (Main_confirmed_before_running env w) as (events & Ht & _ & Hk).
    exists events. split; [exact Ht|now apply existsb_false_filter].
  - destruct (falsy (csrf_token env)) eqn:Htok.
    + exists [EAlert Expand.loginText]. unfold Expand.startBatchBlock. rewrite Htok.
      split; reflexivity.
    + rewrite (Expand_startBatchBlock_finish env w Htok).
      destruct (Expand_getRecommendationUids_run (snd (Expand.expandListIfNeeded env w)))
        as (ev1 & -> & H1).
      cbn [fst snd].
      destruct (finish_events env Expand.noCreatorsText Expand.confirmText 300
                  (extracted (document (snd (Expand.expandListIfNeeded env w))))
                  (after (snd (Expand.expandListIfNeeded env w)) ev1))
        as (ev2 & -> & H2 & _).
      destruct (extraction_not_running ev1 H1) as (_ & _ & Hk1 & _).
      pose proof (finish_event_no_click 300 ev2 H2) as Hk2.
      cbn [negb andb].
      destruct (Expand.present_and_visible
                  (querySelector (document w) ".recommend-list-v1 .rec-footer")) eqn:Hv.
      * rewrite (expandListIfNeeded_visible env w Hv). cbn [snd after trace document].
        eexists. split; [rewrite <- !app_assoc; reflexivity|].
        cbn [app filter is_click].
        now rewrite filter_app, (existsb_false_filter _ _ Hk1), (existsb_false_filter _ _ Hk2).
      * rewrite (expandListIfNeeded_hidden env w Hv). cbn [snd after trace document].
        eexists. split; [rewrite <- !app_assoc; reflexivity|].
        cbn [app filter is_click].
        now rewrite filter_app, (existsb_false_filter _ _ Hk1), (existsb_false_filter _ _ Hk2).
Qed.

(** ** The extractor and a growing list *)

Lemma fresh_for_self (ids : list string) :
  forall acc : JSSet, (forall x, In x ids -> In x acc) ->
  filter (fresh_for acc) ids = [].
Proof.
  induction ids as [|x ids IH]; intros acc H; simpl; [reflexivity|].
  unfold fresh_for at 1.
  assert (Set_has acc x = true) as -> by (apply Set_has_In, H; now left).
  simpl. apply IH. intros y Hy. apply H. now right.
Qed.

Lemma collectUids_app (l1 l2 : list Element) :
  collectUids (l1 ++ l2)
  = collectUids l1 ++ filter (fresh_for (collectUids l1)) (collectUids l2).
Proof.
  unfold collectUids at 1. rewrite fold_left_app. fold (collectUids l1).
  rewrite visitLink_parsed, fold_Set_add.
  now rewrite <- collectUids_keep_first.
Qed.

(** X13. The extractor on a list that grew.  When more links follow the
    links seen before (the list was expanded, or more cards loaded), the
    identifiers found before stay where they were and only identifiers
    that are new are appended, in the order of their links.  In
    particular links that repeat earlier ones add nothing. *)
Theorem collectUids_grows_at_the_end (l1 l2 : list Element) :
  collectUids (l1 ++ l2)
  = collectUids l1 ++ filter (fresh_for (collectUids l1)) (collectUids l2)
  /\ firstn (length (collectUids l1)) (collectUids (l1 ++ l2)) = collectUids l1
  /\ (forall x, In x (collectUids (l1 ++ l2))
                <-> In x (collectUids l1) \/ In x (collectUids l2))
  /\ ((forall x, In x (collectUids l2) -> In x (collectUids l1)) ->
      collectUids (l1 ++ l2) = collectUids l1)
  /\ collectUids (l1 ++ l1) = collectUids l1.
Proof.
  pose proof (collectUids_app l1 l2) as H.
  split; [exact H|]. split; [|split; [|split]].
  - rewrite H, firstn_app, Nat.sub_diag, firstn_all. simpl. apply app_nil_r.
  - intros x. rewrite H, in_app_iff, filter_In. unfold fresh_for.
    rewrite negb_true_iff. split.
    + intros [Hx|[Hx _]]; [now left|now right].
    + intros [Hx|Hx]; [now left|].
      destruct (Set_has (collectUids l1) x) eqn:E.
      * left. now apply Set_has_In.
      * right. now split.
  - intros Hsub. rewrite H, fresh_for_self by assumption. apply app_nil_r.
  - rewrite collectUids_app, fresh_for_self by auto. apply app_nil_r.
Qed.

Lemma collectUids_grows_at_the_end_witness :
  collectUids (fixture_links ++ [anchor "https://space.bilibili.com/11";
                                 anchor "https://space.bilibili.com/44"])
  = ["22"; "11"; "33"; "44"]%string.
Proof.
  rewrite (proj1 (collectUids_grows_at_the_end fixture_links
                    [anchor "https://space.bilibili.com/11";
                     anchor "https://space.bilibili.com/44"])).
  reflexivity.
Defined.

(** ** The start button *)

Lemma getElementById_count (page : Page) (name : string) :
  getElementById page name = None <-> count_id name page = 0%nat.
Proof.
  unfold getElementById, count_id. induction page as [|n page IH]; simpl.
  - split; reflexivity.
  - destruct (String.eqb (id_attr n) name); simpl; [split; discriminate|exact IH].
Qed.

Lemma count_id_app (name : string) (a b : Page) :
  count_id name (a ++ b) = (count_id name a + count_id name b)%nat.
Proof. unfold count_id. now rewrite filter_app, length_app. Qed.

Lemma getElementById_app (a b : Page) (name : string) :
  getElementById (a ++ b) name
  = match getElementById a name with
    | Some n => Some n
    | None => getElementById b name
    end.
Proof.
  unfold getElementById. induction a as [|n a IH]; simpl; [reflexivity|].
  now destruct (String.eqb (id_attr n) name).
Qed.

(** X14. The start button is mounted once.  On a page without an
    element of that id the script appends its button after everything
    else and touches nothing besides; on a page that has such an element
    it changes nothing.  So after the call the page has the element, a
    second call (of either variant) is a no-op, and a page that had at
    most one such element has exactly one. *)
Theorem createStartButton_mounts_once (label label' : string) (page : Page) :
  (getElementById page "batch-block-btn" = None ->
   createStartButton label page = page ++ [startButton label])
  /\ (forall n, getElementById page "batch-block-btn" = Some n ->
                createStartButton label page = page)
  /\ (exists n, getElementById (createStartButton label page) "batch-block-btn" = Some n)
  /\ createStartButton label' (createStartButton label page) = createStartButton label page
  /\ count_id "batch-block-btn" (createStartButton label page)
     = Nat.max 1 (count_id "batch-block-btn" page)
  /\ firstn (length page) (createStartButton label page) = page.
Proof.
  assert (forall l p, getElementById p "batch-block-btn" = None ->
                      createStartButton l p = p ++ [startButton l]) as Hnone.
  { intros l p H. unfold createStartButton. now rewrite H. }
  assert (forall l p n, getElementById p "batch-block-btn" = Some n ->
                        createStartButton l p = p) as Hsome.
  { intros l p n H. unfold createStartButton. now rewrite H. }
  assert (exists n, getElementById (createStartButton label page) "batch-block-btn" = Some n)
    as Hex.
  { destruct (getElementById page "batch-block-btn") as [n|] eqn:E.
    - rewrite (Hsome label page n E). now exists n.
    - rewrite (Hnone label page E), getElementById_app, E. now eexists. }
  split; [apply Hnone|]. split; [apply Hsome|]. split; [exact Hex|].
  split; [|split].
  - destruct Hex as [n Hn]. apply (Hsome label' _ n Hn).
  - destruct (getElementById page "batch-block-btn") as [n|] eqn:E.
    + rewrite (Hsome label page n E).
      assert (count_id "batch-block-btn" page <> 0%nat) as Hc.
      { intros Hc. apply getElementById_count in Hc. congruence. }
      lia.
    + rewrite (Hnone label page E), count_id_app.
      apply getElementById_count in E. rewrite E. reflexivity.
  - destruct (getElementById page "batch-block-btn") as [n|] eqn:E.
    + rewrite (Hsome label page n E). apply firstn_all.
    + rewrite (Hnone label page E), firstn_app, Nat.sub_diag, firstn_all. simpl.
      apply app_nil_r.
Qed.

Lemma createStartButton_mounts_once_witness :
  Main_createStartButton [heading] = [heading; startButton "🚫 Block List"]
  /\ Expand_createStartButton (Main_createStartButton [heading])
     = [heading; startButton "🚫 Block List"].
Proof.
  destruct (createStartButton_mounts_once "🚫 Block List" "🚫 Block All" [heading])
    as (H1 & _ & _ & H2 & _).
  unfold Main_createStartButton, Expand_createStartButton.
  rewrite H2. split; exact (H1 eq_refl).
Defined.

Lemma style_set_set (key a b : string) (st : list (string * string)) :
  style_set key b (style_set key a st) = style_set key b st.
Proof.
  induction st as [|[k v] st IH]; simpl.
  - now rewrite String.eqb_refl.
  - destruct (String.eqb k key) eqn:E; simpl; rewrite E; [reflexivity|now rewrite IH].
Qed.

Lemma style_get_set_other (key other value : string) (st : list (string * string)) :
  other <> key ->
  style_get other (style_set key value st) = style_get other st.
Proof.
  intros Hne. unfold style_get. induction st as [|[k v] st IH]; simpl.
  - destruct (String.eqb_spec key other); [congruence|reflexivity].
  - destruct (String.eqb_spec k key) as [->|Hk]; simpl.
    + destruct (String.eqb_spec key other); [congruence|reflexivity].
    + destruct (String.eqb k other); [reflexivity|exact IH].
Qed.

Lemma pointer_event_coloured (label color : string) (e : Pointer) :
  pointer_event (startButtonColoured label color) e
  = startButtonColoured label
      (match e with PointerOver => "#ff4d85" | PointerOut => "#FF6699" end).
Proof.
  destruct e; unfold pointer_event, run_handler, startButtonColoured;
    cbn [onmouseover onmouseout tagName id_attr textContent style onclick];
    now rewrite style_set_set.
Qed.

Lemma pointer_events_coloured (label : string) (es : list Pointer) :
  forall color,
  pointer_events (startButtonColoured label color) es
  = startButtonColoured label (hover_colour color es).
Proof.
  unfold pointer_events. induction es as [|e es IH]; intros color; [reflexivity|].
  cbn [fold_left]. rewrite pointer_event_coloured, IH. f_equal.
  unfold hover_colour. destruct es as [|e' es]; [now destruct e|].
  cbn [last]. now destruct (last (e' :: es) PointerOut).
Qed.

(** X15. Hovering the start button only changes its background colour,
    and leaving it restores the button.  After any sequence of pointer
    events the button is the one the script created, with the hover
    colour when the pointer was last moved over it and with the original
    colour when it was last moved out (or never moved); no other style
    property, the label and the handlers never change. *)
Theorem hover_changes_only_the_colour (label : string) (es : list Pointer) :
  let button := pointer_events (startButton label) es in
  button = startButtonColoured label (hover_colour "#FF6699" es)
  /\ style_get "backgroundColor" (style button) = Some (hover_colour "#FF6699" es)
  /\ (forall key, key <> "backgroundColor"%string ->
        style_get key (style button) = style_get key (style (startButton label)))
  /\ (last es PointerOut = PointerOut -> button = startButton label)
  /\ (last es PointerOut = PointerOver -> es <> [] ->
      style_get "backgroundColor" (style button) = Some "#ff4d85"%string)
  /\ onclick button = Some RunStartBatchBlock.
Proof.
  intros button.
  assert (button = startButtonColoured label (hover_colour "#FF6699" es)) as Hb.
  { unfold button.
    change (startButton label) with (startButtonColoured label "#FF6699").
    apply pointer_events_coloured. }
  split; [exact Hb|]. rewrite Hb. split; [reflexivity|]. split; [|split; [|split]].
  - intros key Hkey. cbn [style startButtonColoured startButton].
    now apply style_get_set_other.
  - intros Hlast. unfold hover_colour. rewrite Hlast. now destruct es.
  - intros Hlast Hne. unfold hover_colour. rewrite Hlast.
    destruct es; [contradiction|reflexivity].
  - reflexivity.
Qed.

Lemma hover_changes_only_the_colour_witness :
  pointer_events (startButton "🚫 Block List") [PointerOver; PointerOut; PointerOver; PointerOut]
  = startButton "🚫 Block List"
  /\ style_get "backgroundColor"
       (style (pointer_events (startButton "🚫 Block List") [PointerOver]))
     = Some "#ff4d85"%string.
Proof.
  destruct (hover_changes_only_the_colour "🚫 Block List"
              [PointerOver; PointerOut; PointerOver; PointerOut]) as (_ & _ & _ & H1 & _).
  destruct (hover_changes_only_the_colour "🚫 Block List" [PointerOver])
    as (_ & _ & _ & _ & H2 & _).
  split; [exact (H1 eq_refl)|apply (H2 eq_refl); discriminate].
Defined.
